(** * The done-file watcher of pkg/worker (worker.go)

    A shallow embedding of [GatherResults], [handleWaitFile], [sigHandler]
    and [init], with the Go library calls they make ([filepath.Ext],
    [mime.TypeByExtension], [mime.AddExtensionType], [ioutil.ReadFile],
    [os.Open], [File.Close], [errors.WithStack], channels and
    goroutines) modelled next to them.

    - The shared volume is a finite map from paths to nodes.
    - Go strings are byte strings: [string], one [ascii] per byte.
    - The goroutines and channels of [GatherResults] form a transition
      system; the scheduler, the Go runtime (ticker, sleep), the operating
      system (SIGTERM) and the plugin (writes to the volume) pick the
      next action. *)

From Stdlib Require Import Ascii String List PeanoNat Bool Lia.
From stdpp Require Import base option strings gmap.
Import ListNotations.

(** ** Strings and paths *)

Module filepath.

(** os.IsPathSeparator on the platforms the worker runs on. *)
Definition IsPathSeparator (c : ascii) : bool := Ascii.eqb c "/"%char.

(** [for i := len(path) - 1; i >= 0 && !os.IsPathSeparator(path[i]); i--]
    with [n = i + 1]. *)
Fixpoint Ext_loop (path : string) (n : nat) : string :=
  match n with
  | 0 => EmptyString
  | S i =>
      match String.get i path with
      | None => EmptyString
      | Some c =>
          if IsPathSeparator c then EmptyString
          else if Ascii.eqb c "."%char then
                 String.substring i (String.length path - i) path
               else Ext_loop path i
      end
  end.

Definition Ext (path : string) : string :=
  Ext_loop path (String.length path).

End filepath.

Module mime.

(** The two tables of package mime that lookups read:
    [mimeTypes] (keys as registered) and [mimeTypesLower]. *)
Record tables := Tables {
  mimeTypes : gmap string string;
  mimeTypesLower : gmap string string
}.

(** A Go map read [m[k]]: the zero value when the key is absent. *)
Definition index (m : gmap string string) (k : string) : string :=
  default EmptyString (m !! k).

Definition utf8RuneSelf : nat := 128.

Definition lower_byte (c : ascii) : ascii :=
  let n := nat_of_ascii c in
  if (65 <=? n) && (n <=? 90) then ascii_of_nat (n + 32) else c.

(** The allocation-free loop of TypeByExtension: [Some lower] when every
    byte is below [utf8RuneSelf], [None] when the slow path is taken. *)
Fixpoint lower_ascii (ext : string) : option string :=
  match ext with
  | EmptyString => Some EmptyString
  | String c rest =>
      if utf8RuneSelf <=? nat_of_ascii c then None
      else option_map (String (lower_byte c)) (lower_ascii rest)
  end.

Section Tables.
(** [strings.ToLower]: its Unicode case tables are not part of this
    development. *)
Variable ToLower : string -> string.

Definition TypeByExtension (t : tables) (ext : string) : string :=
  let v := index (mimeTypes t) ext in
  if negb (String.eqb v EmptyString) then v
  else match lower_ascii ext with
       | None => index (mimeTypesLower t) (ToLower ext)
       | Some lower => index (mimeTypesLower t) lower
       end.

(** [AddExtensionType] on a media type without parameters and not under
    [text/] (no charset is added); the [extensions] reverse table is
    not read by the worker and is left out. *)
Definition AddExtensionType (ext typ : string) (t : tables) : option tables :=
  if negb (String.prefix "."%string ext) then None
  else Some {| mimeTypes := <[ext := typ]> (mimeTypes t);
               mimeTypesLower := <[ToLower ext := typ]> (mimeTypesLower t) |}.
End Tables.

End mime.

(** [func init()] of package worker, run on the platform's tables; the
    returned error of AddExtensionType is dropped by the source. *)
Definition init (ToLower : string -> string) (platform : mime.tables) : mime.tables :=
  match mime.AddExtensionType ToLower ".gz"%string "application/gzip"%string platform with
  | Some t => t
  | None => platform
  end.

(** ** Errors *)

Inductive errno := ENOENT | EACCES | EISDIR.

Inductive error :=
| PathError (op path : string) (e : errno)    (* *os.PathError *)
| withStack (cause : error)                   (* pkg/errors: the cause plus the callers' program counters *)
| RequestError (msg : string).                (* whatever DoRequest reports *)

(** [errors.WithStack]: nil stays nil. *)
Definition WithStack (err : option error) : option error :=
  match err with
  | None => None
  | Some e => Some (withStack e)
  end.

(** ** The shared volume and the process's files *)

Inductive node :=
| RegularFile (readable : bool) (content : string)
| Directory.

Inductive open_flag := O_RDONLY | O_WRONLY | O_RDWR.

(** What the worker does that the outside can observe, oldest first. *)
(** A *http.Client, by identity: the worker only passes it on. *)
Inductive Client := HttpClient (id : nat).

Inductive event :=
| Info (msg : string) (field value : string)       (* logrus: message and the WithField pair *)
| SysReadFile (filename : string)
| SysOpen (name : string) (flag : open_flag) (file : option nat)
| SysClose (file : nat)
| CallDoRequest (url : string) (client : Client)
| CallbackReturn (r : option nat) (mimeType : string) (err : option error).

(** [files]: every *os.File this process created, by allocation order, with
    the name it was opened on and whether it is still open. *)
Record World := mkWorld {
  volume : gmap string node;
  files : list (string * bool);
  events : list event
}.

Section Files.
Definition emit (e : event) (w : World) : World :=
  mkWorld (volume w) (files w) (events w ++ [e]).

(** [ioutil.ReadFile]: the data and a nil error, or no data and the error. *)
Definition ReadFile (filename : string) (w : World) : string * option error * World :=
  let w' := emit (SysReadFile filename) w in
  match volume w !! filename with
  | None => (EmptyString, Some (PathError "open" filename ENOENT), w')
  | Some (RegularFile false _) => (EmptyString, Some (PathError "open" filename EACCES), w')
  | Some Directory => (EmptyString, Some (PathError "read" filename EISDIR), w')
  | Some (RegularFile true content) => (content, None, w')
  end.

(** [os.Open]: [OpenFile(name, O_RDONLY, 0)]. *)
Definition Open (name : string) (w : World) : option nat * option error * World :=
  match volume w !! name with
  | None =>
      (None, Some (PathError "open" name ENOENT), emit (SysOpen name O_RDONLY None) w)
  | Some (RegularFile false _) =>
      (None, Some (PathError "open" name EACCES), emit (SysOpen name O_RDONLY None) w)
  | Some _ =>
      let f := length (files w) in
      (Some f, None,
       emit (SysOpen name O_RDONLY (Some f))
            (mkWorld (volume w) (files w ++ [(name, true)]) (events w)))
  end.

(** [File.Close]; its error (already closed) is ignored by the caller. *)
Definition Close (f : nat) (w : World) : World :=
  emit (SysClose f)
       (mkWorld (volume w)
                (match files w !! f with
                 | Some (name, _) => <[f := (name, false)]> (files w)
                 | None => files w
                 end)
                (events w)).

Definition is_open (f : nat) (w : World) : bool :=
  match files w !! f with
  | Some (_, o) => o
  | None => false
  end.
End Files.

(** ** The transmission primitive *)

(** The io.Reader handed to DoRequest: the *os.File, nil after a failed open. *)
Definition Reader := option nat.

(** DoRequest lives in another file of the package.  All that matters to the
    worker is when it invokes the callback and what it returns, so it is taken
    as a parameter of this shape: a call either returns, or invokes the
    callback and goes on with what the callback produced.  What DoRequest
    does with the stream on its own account (reading it, sending it, closing
    it) is not part of worker.go and leaves no event here. *)
Inductive request :=
| Return (err : option error)
| Invoke (k : Reader * string * option error -> request).

(** How many times a call invokes its callback at most, over all answers. *)
Inductive invokes_at_most : nat -> request -> Prop :=
| iam_return n err : invokes_at_most n (Return err)
| iam_invoke n k : (forall r, invokes_at_most n (k r)) -> invokes_at_most (S n) (Invoke k).

(** ** Channels *)

(** A channel of values without content (struct{}, a tick, a signal):
    [len] values sit in the buffer, [parked] senders wait for a receiver. *)
Record chan := Chan { cap : nat; len : nat; parked : nat; closed : bool }.

Definition make (n : nat) : chan := Chan n 0 0 false.

(** Whether [<-c] can proceed: a buffered value, a parked sender, or the zero
    value of a closed channel. *)
Definition recv_ready (c : chan) : bool :=
  (0 <? len c) || (0 <? parked c) || closed c.

Definition recv (c : chan) : chan :=
  if 0 <? len c then Chan (cap c) (len c - 1) (parked c) (closed c)
  else if 0 <? parked c then Chan (cap c) (len c) (parked c - 1) (closed c)
  else c.

(** Whether [c <- v] can put its value in the buffer. *)
Definition has_room (c : chan) : bool := len c <? cap c.

Definition send (c : chan) : chan := Chan (cap c) (len c + 1) (parked c) (closed c).

(** The non-blocking send of the runtime (ticker, signal delivery): the value
    is dropped when the buffer is full. *)
Definition try_send (c : chan) : chan := if has_room c then send c else c.

(** A sender that finds no room and no receiver waits on the channel. *)
Definition park (c : chan) : chan := Chan (cap c) (len c) (parked c + 1) (closed c).

Definition close (c : chan) : chan := Chan (cap c) (len c) (parked c) true.

(** ** handleWaitFile *)

Section Worker.
Variable ToLower : string -> string.
Variable platform : mime.tables.
Variable DoRequest : string -> Client -> request.

(** The variables the callback and the deferred function share. *)
Record frame := Frame { outfile : option nat; err : option error }.

(** The function literal passed to DoRequest. *)
Definition callback (resultFile mimeType : string) (s : frame * World)
  : (Reader * string * option error) * (frame * World) :=
  let '(f, e, w) := Open resultFile (snd s) in
  let r := (f, mimeType, WithStack e) in
  (r, (Frame f e, emit (CallbackReturn f mimeType (WithStack e)) w)).

(** Running a DoRequest call against a callback. *)
Fixpoint run_request (q : request)
    (cb : frame * World -> (Reader * string * option error) * (frame * World))
    (s : frame * World) : option error * (frame * World) :=
  match q with
  | Return e => (e, s)
  | Invoke k => let '(r, s') := cb s in run_request (k r) cb s'
  end.

Definition handleWaitFile (resultFile url : string) (client : Client) (w : World)
  : option error * World :=
  let extension := filepath.Ext resultFile in
  let mimeType := mime.TypeByExtension ToLower (init ToLower platform) extension in
  let '(e, (fr, w1)) :=
    run_request (DoRequest url client) (callback resultFile mimeType)
                (Frame None None, emit (CallDoRequest url client) w) in
  (* the deferred function *)
  let w2 := match outfile fr with
            | Some f => Close f w1
            | None => w1
            end in
  (e, w2).

(** ** GatherResults and sigHandler as a transition system *)

Inductive main_pc :=
| InSelect                          (* blocked in the select of the for loop *)
| Returned (err : option error).

(** The goroutine of sigHandler. *)
Inductive sig_pc :=
| SigSpawned                        (* go func() { ... } not yet scheduled *)
| SigWaiting                        (* after signal.Notify, blocked in <-sigc *)
| SigExited.                        (* after the Info line *)

(** A goroutine spawned by the [case <-signals] branch. *)
Inductive grace_pc :=
| Sleeping                          (* in time.Sleep(plugin.GracefulShutdownPeriod) *)
| Sending                           (* at stop <- struct{}{} *)
| Sent.

Record Sys := mkSys {
  world : World;
  alive : bool;                     (* false once the process was killed or panicked *)
  ticker : chan;                    (* time.Tick(1 * time.Second) *)
  signals : chan;                   (* the channel sigHandler returned *)
  sigc : option chan;               (* registered with signal.Notify, once made *)
  stop : chan;
  sigG : sig_pc;
  graceG : list grace_pc;
  main : main_pc
}.

Definition set_world (w : World) (s : Sys) : Sys :=
  mkSys w (alive s) (ticker s) (signals s) (sigc s) (stop s) (sigG s) (graceG s) (main s).
Definition set_alive (b : bool) (s : Sys) : Sys :=
  mkSys (world s) b (ticker s) (signals s) (sigc s) (stop s) (sigG s) (graceG s) (main s).
Definition set_ticker (c : chan) (s : Sys) : Sys :=
  mkSys (world s) (alive s) c (signals s) (sigc s) (stop s) (sigG s) (graceG s) (main s).
Definition set_signals (c : chan) (s : Sys) : Sys :=
  mkSys (world s) (alive s) (ticker s) c (sigc s) (stop s) (sigG s) (graceG s) (main s).
Definition set_sigc (c : option chan) (s : Sys) : Sys :=
  mkSys (world s) (alive s) (ticker s) (signals s) c (stop s) (sigG s) (graceG s) (main s).
Definition set_stop (c : chan) (s : Sys) : Sys :=
  mkSys (world s) (alive s) (ticker s) (signals s) (sigc s) c (sigG s) (graceG s) (main s).
Definition set_sigG (p : sig_pc) (s : Sys) : Sys :=
  mkSys (world s) (alive s) (ticker s) (signals s) (sigc s) (stop s) p (graceG s) (main s).
Definition set_graceG (g : list grace_pc) (s : Sys) : Sys :=
  mkSys (world s) (alive s) (ticker s) (signals s) (sigc s) (stop s) (sigG s) g (main s).
Definition set_main (p : main_pc) (s : Sys) : Sys :=
  mkSys (world s) (alive s) (ticker s) (signals s) (sigc s) (stop s) (sigG s) (graceG s) p.

(** [sigHandler()]: the channel it returns is new, and so is the goroutine;
    [sigc] does not exist before the goroutine runs. *)
Definition sigHandler (s : Sys) : chan * Sys :=
  let stop := make 0 in
  (stop, set_sigG SigSpawned (set_sigc None s)).

(** GatherResults up to the [for]: the state in which the loop starts. *)
Definition GatherResults (waitfile : string) (vol : gmap string node) : Sys :=
  let w := emit (Info "Waiting for waitfile" "waitfile" waitfile) (mkWorld vol [] []) in
  let boot := mkSys w true (make 0) (make 0) None (make 0) SigSpawned [] InSelect in
  let '(signals, s1) := sigHandler boot in
  let ticker := make 1 in
  let stop := make 1 in
  set_stop stop (set_ticker ticker (set_signals signals s1)).

Inductive select_case := CaseTicker | CaseSignals | CaseStop.

(** Who moves next. *)
Inductive action :=
| Plugin (vol : gmap string node)   (* the plugin (or anybody) rewrites the shared volume *)
| RuntimeTick                       (* the ticker fires *)
| Sigterm                           (* the operating system delivers SIGTERM *)
| SigHandlerRun                     (* the goroutine of sigHandler runs to its next blocking point *)
| TestSignal                        (* a test double offers a value on [signals] *)
| Select (c : select_case)          (* the loop takes a ready case and runs its body *)
| SleepReturns (i : nat)            (* time.Sleep returns in the i-th grace goroutine *)
| StopSend (i : nat).               (* the i-th grace goroutine completes stop <- struct{}{} *)

Definition in_select (s : Sys) : bool :=
  match main s with InSelect => true | Returned _ => false end.

(** One iteration body per case of the select. *)
Definition select_body (waitfile url : string) (client : Client)
    (c : select_case) (s : Sys) : option Sys :=
  match c with
  | CaseTicker =>
      if recv_ready (ticker s) then
        let s1 := set_ticker (recv (ticker s)) s in
        let '(resultFile, err, w1) := ReadFile waitfile (world s1) in
        match err with
        | None =>
            let w2 := emit (Info "Detected done file, transmitting result file"
                                 "resultFile" resultFile) w1 in
            let '(e, w3) := handleWaitFile resultFile url client w2 in
            Some (set_main (Returned e) (set_world w3 s1))
        | Some _ => Some (set_world w1 s1)
        end
      else None
  | CaseSignals =>
      if recv_ready (signals s) then
        Some (set_graceG (graceG s ++ [Sleeping]) (set_signals (recv (signals s)) s))
      else None
  | CaseStop =>
      if recv_ready (stop s) then
        let w1 := emit (Info "Did not receive plugin results in time. Shutting down worker."
                             EmptyString EmptyString) (world s) in
        Some (set_main (Returned None) (set_stop (close (recv (stop s))) (set_world w1 s)))
      else None
  end.

(** [double]: whether anything outside sigHandler holds the sending end of
    [signals].  The program as written is [double = false]. *)
Definition step (double : bool) (waitfile url : string) (client : Client)
    (a : action) (s : Sys) : option Sys :=
  if negb (alive s) then None else
  match a with
  | Plugin vol =>
      Some (set_world (mkWorld vol (files (world s)) (events (world s))) s)
  | RuntimeTick => Some (set_ticker (try_send (ticker s)) s)
  | Sigterm =>
      match sigc s with
      | None => Some (set_alive false s)          (* default disposition *)
      | Some c => Some (set_sigc (Some (try_send c)) s)
      end
  | SigHandlerRun =>
      match sigG s with
      | SigSpawned => Some (set_sigG SigWaiting (set_sigc (Some (make 1)) s))
      | SigWaiting =>
          match sigc s with
          | Some c =>
              if recv_ready c then
                let w1 := emit (Info "got a signal, waiting then sending the real shutdown signal"
                                     "signal" "terminated") (world s) in
                Some (set_sigG SigExited (set_sigc (Some (recv c)) (set_world w1 s)))
              else None
          | None => None
          end
      | SigExited => None
      end
  | TestSignal =>
      if double then Some (set_signals (park (signals s)) s) else None
  | Select c =>
      if in_select s then select_body waitfile url client c s else None
  | SleepReturns i =>
      match graceG s !! i with
      | Some Sleeping => Some (set_graceG (<[i := Sending]> (graceG s)) s)
      | _ => None
      end
  | StopSend i =>
      match graceG s !! i with
      | Some Sending =>
          if closed (stop s) then Some (set_alive false s)   (* send on closed channel *)
          else if has_room (stop s) then
                 Some (set_graceG (<[i := Sent]> (graceG s)) (set_stop (send (stop s)) s))
               else None                                      (* blocked *)
      | _ => None
      end
  end.

Fixpoint exec (double : bool) (waitfile url : string) (client : Client)
    (tr : list action) (s : Sys) : option Sys :=
  match tr with
  | [] => Some s
  | a :: tr' =>
      match step double waitfile url client a s with
      | Some s' => exec double waitfile url client tr' s'
      | None => None
      end
  end.

(** The volume as the plugin left it after [tr]. *)
Fixpoint volume_after (vol : gmap string node) (tr : list action) : gmap string node :=
  match tr with
  | [] => vol
  | Plugin vol' :: tr' => volume_after vol' tr'
  | _ :: tr' => volume_after vol tr'
  end.

End Worker.

(** ** Observations on the event log *)

Fixpoint count (p : event -> bool) (l : list event) : nat :=
  match l with
  | [] => 0
  | e :: l' => (if p e then 1 else 0) + count p l'
  end.

Definition is_DoRequest (e : event) : bool :=
  match e with CallDoRequest _ _ => true | _ => false end.

Definition opens (f : nat) (e : event) : bool :=
  match e with SysOpen _ _ (Some g) => g =? f | _ => false end.

Definition closes (f : nat) (e : event) : bool :=
  match e with SysClose g => g =? f | _ => false end.

Definition is_timeout_log (e : event) : bool :=
  match e with
  | Info msg _ _ =>
      String.eqb msg "Did not receive plugin results in time. Shutting down worker."
  | _ => false
  end.

(** The error [os.Open] reports for [name] on a volume, nil when it opens. *)
Definition open_error (vol : gmap string node) (name : string) : option error :=
  match vol !! name with
  | None => Some (PathError "open" name ENOENT)
  | Some (RegularFile false _) => Some (PathError "open" name EACCES)
  | Some _ => None
  end.

(** The events one invocation of the callback of [handleWaitFile] leaves. *)
Definition callback_event (vol : gmap string node) (resultFile mimeType : string)
    (e : event) : Prop :=
  match e with
  | SysOpen name flag file =>
      name = resultFile /\ flag = O_RDONLY /\
      (file = None <-> open_error vol resultFile <> None)
  | CallbackReturn r m err =>
      m = mimeType /\ err = WithStack (open_error vol resultFile) /\
      (r = None <-> open_error vol resultFile <> None)
  | _ => False
  end.

(** A system call that leaves the volume as it is. *)
Definition reads_only (waitfile : string) (e : event) : Prop :=
  match e with
  | SysReadFile filename => filename = waitfile
  | SysOpen _ flag _ => flag = O_RDONLY
  | _ => True
  end.

(** An extension neither table of package mime has a key for. *)
Definition lower_key (ToLower : string -> string) (ext : string) : string :=
  match mime.lower_ascii ext with
  | Some lower => lower
  | None => ToLower ext
  end.

Definition unrecognized (ToLower : string -> string) (t : mime.tables) (ext : string) : Prop :=
  mime.mimeTypes t !! ext = None /\
  mime.mimeTypesLower t !! lower_key ToLower ext = None.

(** The world in which [handleWaitFile] starts after a successful read. *)
Definition detected (waitfile data : string) (w : World) : World :=
  emit (Info "Detected done file, transmitting result file" "resultFile" data)
       (emit (SysReadFile waitfile) w).

(** ** Invariants of the loop *)

(** How many grace goroutines completed their send on [stop]. *)
Fixpoint sent (g : list grace_pc) : nat :=
  match g with
  | [] => 0
  | Sent :: g' => S (sent g')
  | _ :: g' => sent g'
  end.

Record Inv (waitfile : string) (s : Sys) : Prop := mkInv {
  inv_ticker_cap : cap (ticker s) = 1;
  inv_stop_cap : cap (stop s) = 1;
  inv_stop_parked : parked (stop s) = 0;
  inv_reads : Forall (reads_only waitfile) (events (world s));
  inv_loop :
    in_select s = true ->
    closed (stop s) = false /\
    len (stop s) = sent (graceG s) /\
    count is_DoRequest (events (world s)) = 0 /\
    count is_timeout_log (events (world s)) = 0;
  inv_returned :
    forall e, main s = Returned e ->
      (count is_DoRequest (events (world s)) = 1 /\
       count is_timeout_log (events (world s)) = 0)
      \/
      (e = None /\
       count is_DoRequest (events (world s)) = 0 /\
       count is_timeout_log (events (world s)) = 1 /\
       0 < sent (graceG s))
}.

(** The waitfile cannot be read on this volume. *)
Definition unreadable (waitfile : string) (vol : gmap string node) : Prop :=
  forall content, vol !! waitfile <> Some (RegularFile true content).

(** The plugin never makes the waitfile readable during [tr]. *)
Definition never_readable (waitfile : string) (tr : list action) : Prop :=
  Forall (fun a => match a with
                   | Plugin vol => unreadable waitfile vol
                   | _ => True
                   end) tr.

(** In the program as written nothing touches the channel sigHandler
    returned, no grace goroutine exists, and [stop] stays as it was made. *)
Definition quiet (s : Sys) : Prop :=
  signals s = make 0 /\ graceG s = [] /\ stop s = make 1.

(** ** Trimming, as the specification words it *)

(** The ASCII white space of [strings.TrimSpace].  The worker has no call of
    it; the definition serves to compare the specification's wording with
    what [GatherResults] passes on. *)
Definition isSpace (c : ascii) : bool :=
  match nat_of_ascii c with
  | 9 | 10 | 11 | 12 | 13 | 32 => true
  | _ => false
  end.

Fixpoint TrimLeft (s : string) : string :=
  match s with
  | EmptyString => EmptyString
  | String c rest => if isSpace c then TrimLeft rest else s
  end.

Fixpoint TrimRight (s : string) : string :=
  match s with
  | EmptyString => EmptyString
  | String c rest =>
      match TrimRight rest with
      | EmptyString => if isSpace c then EmptyString else String c EmptyString
      | rest' => String c rest'
      end
  end.

Definition TrimSpace (s : string) : string := TrimRight (TrimLeft s).

(** ** A concrete setting *)

Module Demo.

(** Lower-casing of ASCII letters, the other bytes as they are. *)
Fixpoint ToLower (s : string) : string :=
  match s with
  | EmptyString => EmptyString
  | String c rest => String (mime.lower_byte c) (ToLower rest)
  end.

Definition platform : mime.tables :=
  mime.Tables {[ ".html"%string := "text/html; charset=utf-8"%string;
                 ".png"%string := "image/png"%string ]}
              {[ ".html"%string := "text/html; charset=utf-8"%string;
                 ".png"%string := "image/png"%string ]}.

(** Modelled from the spec: DoRequest, of package worker but not in
    worker.go.  "Given a destination URL, an HTTP client, and a factory that
    lazily produces a readable stream, content type, and error, it performs
    the actual upload and reports success/failure": it asks the factory
    once; here the upload itself succeeds, so that the outcome is the
    factory's error. *)
Definition DoRequest (url : string) (client : Client) : request :=
  Invoke (fun '(r, mimeType, err) => Return err).

(** A DoRequest that asks the factory a second time after a failure of the
    upload, as a retrying implementation would. *)
Definition DoRequest_retrying (url : string) (client : Client) : request :=
  Invoke (fun _ => Invoke (fun '(r, mimeType, err) => Return err)).

Definition client : Client := HttpClient 0.
Definition url : string := "http://aggregator/results".
Definition waitfile : string := "/tmp/done".
Definition newline : string := String (ascii_of_nat 10) EmptyString.
Definition content_newline : string := "/tmp/results.tar.gz" ++ newline.

Definition vol : gmap string node :=
  {[ "/tmp/done"%string := RegularFile true "/tmp/results.tar.gz";
     "/tmp/results.tar.gz"%string := RegularFile true "archive" ]}.

(** The same, the plugin having written the path with [echo]. *)
Definition vol_newline : gmap string node :=
  {[ "/tmp/done"%string := RegularFile true content_newline;
     "/tmp/results.tar.gz"%string := RegularFile true "archive" ]}.

(** The waitfile names an artifact that is not there. *)
Definition vol_missing : gmap string node :=
  {[ "/tmp/done"%string := RegularFile true "/tmp/results.xyz" ]}.

Definition no_waitfile : gmap string node := ∅.

Definition world0 (v : gmap string node) : World := mkWorld v [] [].

(** The loop of [GatherResults(waitfile, url, client)] started on [v] and
    driven by [tr]; [double] as in [step]. *)
Abbreviation run double v tr :=
  (exec ToLower platform DoRequest double waitfile url client tr
        (GatherResults waitfile v)).

Abbreviation tick double s :=
  (step ToLower platform DoRequest double waitfile url client (Select CaseTicker) s).

End Demo.

(** The moves by which a grace period runs out: the sleep returns, the send
    on [stop] completes, the loop takes [case <-stop]. *)
Definition expiry (a : action) : Prop :=
  match a with
  | SleepReturns _ | StopSend _ | Select CaseStop => True
  | _ => False
  end.

(** ** Further observations *)

(** An extension text proper: no dot and no path separator in it. *)
Fixpoint plain (e : string) : bool :=
  match e with
  | EmptyString => true
  | String c rest =>
      negb (Ascii.eqb c "."%char) && negb (filepath.IsPathSeparator c) && plain rest
  end.

Definition is_read (e : event) : bool :=
  match e with SysReadFile _ => true | _ => false end.

Definition is_open_call (e : event) : bool :=
  match e with SysOpen _ _ _ => true | _ => false end.

Definition is_close (e : event) : bool :=
  match e with SysClose _ => true | _ => false end.

Definition is_callback (e : event) : bool :=
  match e with CallbackReturn _ _ _ => true | _ => false end.

Definition is_signal_log (e : event) : bool :=
  match e with
  | Info msg _ _ =>
      String.eqb msg "got a signal, waiting then sending the real shutdown signal"
  | _ => false
  end.

(** The events other than log lines: system calls, DoRequest and its callback. *)
Fixpoint calls (l : list event) : list event :=
  match l with
  | [] => []
  | Info _ _ _ :: l' => calls l'
  | e :: l' => e :: calls l'
  end.

(** How often the ticker fired, and how often SIGTERM arrived, during [tr]. *)
Fixpoint ticks (tr : list action) : nat :=
  match tr with
  | [] => 0
  | RuntimeTick :: tr' => S (ticks tr')
  | _ :: tr' => ticks tr'
  end.

Fixpoint sigterms (tr : list action) : nat :=
  match tr with
  | [] => 0
  | Sigterm :: tr' => S (sigterms tr')
  | _ :: tr' => sigterms tr'
  end.

(** The buffered values of the channel given to [signal.Notify], if made. *)
Definition sigc_len (s : Sys) : nat :=
  match sigc s with
  | Some c => len c
  | None => 0
  end.

(** The ticker channel as [time.Tick] made it: one slot, never closed. *)
Definition ticker_ok (s : Sys) : Prop :=
  cap (ticker s) = 1 /\ parked (ticker s) = 0 /\ closed (ticker s) = false /\
  len (ticker s) <= 1.

(** sigHandler's goroutine and its channel: [sigc] exists from the call of
    [signal.Notify] on, has one slot and is never closed; the signal line is
    in the log exactly when the goroutine has exited. *)
Definition sig_ok (s : Sys) : Prop :=
  (sigG s = SigSpawned -> sigc s = None) /\
  (sigG s <> SigSpawned ->
   exists c, sigc s = Some c /\ cap c = 1 /\ parked c = 0 /\ closed c = false /\
             len c <= 1) /\
  count is_signal_log (events (world s))
  = match sigG s with SigExited => 1 | _ => 0 end.

(** ** Tactics for concrete runs *)

(** Name the state a concrete run ends in. *)
Ltac run_to s E :=
  match goal with
  | |- context [exec ?lo ?pf ?dr ?d ?wf ?u ?c ?tr ?init = Some _] =>
      destruct (exec lo pf dr d wf u c tr init) as [s|] eqn:E;
      [| exfalso; revert E; vm_compute; discriminate]
  end.

(** Read a component of the state a concrete run ends in. *)
Ltac observe E f val H :=
  match type of E with
  | ?r = Some ?s =>
      assert (H : option_map f r = Some val) by (vm_compute; reflexivity);
      rewrite E in H; cbn [option_map] in H; injection H as H
  end.

(** * Properties *)

(** ** Paths and content types *)

Lemma substring_skip (p s : string) (n : nat) :
  String.substring (String.length p) n (p ++ s) = String.substring 0 n s.
Proof. induction p as [|c p IH]; simpl; [reflexivity | exact IH]. Qed.

Lemma get_skip (p s : string) (n : nat) :
  String.get (String.length p + n) (p ++ s) = String.get n s.
Proof. induction p as [|c p IH]; simpl; [reflexivity | exact IH]. Qed.

Lemma string_length_app (p s : string) :
  String.length (p ++ s) = String.length p + String.length s.
Proof. induction p as [|c p IH]; simpl; [reflexivity | now rewrite IH]. Qed.

Lemma Ext_gz (p : string) : filepath.Ext (p ++ ".gz") = ".gz"%string.
Proof.
  unfold filepath.Ext. rewrite string_length_app. simpl String.length.
  replace (String.length p + 3) with (S (S (S (String.length p)))) by lia.
  cbn [filepath.Ext_loop].
  replace (S (S (String.length p))) with (String.length p + 2) by lia.
  rewrite get_skip. cbn.
  replace (S (String.length p)) with (String.length p + 1) by lia.
  rewrite get_skip. cbn.
  replace (String.length p) with (String.length p + 0) at 1 by lia.
  rewrite get_skip. cbn.
  rewrite string_length_app. simpl String.length.
  replace (String.length p + 3 - String.length p) with 3 by lia.
  rewrite substring_skip. reflexivity.
Qed.

Lemma TypeByExtension_gz (ToLower : string -> string) (platform : mime.tables) :
  mime.TypeByExtension ToLower (init ToLower platform) ".gz" = "application/gzip"%string.
Proof.
  unfold init, mime.AddExtensionType, mime.TypeByExtension, mime.index. cbn.
  rewrite lookup_insert_eq. reflexivity.
Qed.

(** ** The event log *)

Lemma count_app (p : event -> bool) (l1 l2 : list event) :
  count p (l1 ++ l2) = count p l1 + count p l2.
Proof. induction l1 as [|e l1 IH]; simpl; [reflexivity | rewrite IH; lia]. Qed.

Lemma count_zero (p : event -> bool) (l : list event) :
  Forall (fun e => p e = false) l -> count p l = 0.
Proof. induction 1 as [|e l He _ IH]; simpl; [reflexivity | now rewrite He, IH]. Qed.

Lemma callback_event_count vol rf m (p : event -> bool) (l : list event) :
  (forall e, callback_event vol rf m e -> p e = false) ->
  Forall (callback_event vol rf m) l -> count p l = 0.
Proof.
  intros Hp Hl. apply count_zero. eapply Forall_impl; [exact Hl | exact Hp].
Qed.

(** ** os.Open and the callback *)

Lemma Open_spec (name : string) (w : World) :
  exists file,
    Open name w =
      (file, open_error (volume w) name,
       emit (SysOpen name O_RDONLY file)
            (mkWorld (volume w)
                     (files w ++ match file with Some _ => [(name, true)] | None => [] end)
                     (events w))) /\
    (file = None <-> open_error (volume w) name <> None) /\
    (forall f, file = Some f -> f = length (files w)).
Proof.
  unfold Open, open_error.
  destruct (volume w !! name) as [[[|] c|]|].
  - exists (Some (length (files w))). split; [reflexivity|].
    split; [split; [discriminate | congruence] | congruence].
  - exists None. rewrite app_nil_r. split; [reflexivity|].
    split; [split; [discriminate | reflexivity] | discriminate].
  - exists (Some (length (files w))). split; [reflexivity|].
    split; [split; [discriminate | congruence] | congruence].
  - exists None. rewrite app_nil_r. split; [reflexivity|].
    split; [split; [discriminate | reflexivity] | discriminate].
Qed.

Section WorkerFacts.
Variable ToLower : string -> string.
Variable platform : mime.tables.
Variable DoRequest : string -> Client -> request.

Lemma callback_spec (rf m : string) (fr : frame) (w : World) :
  exists file,
    callback rf m (fr, w) =
      ((file, m, WithStack (open_error (volume w) rf)),
       (Frame file (open_error (volume w) rf),
        mkWorld (volume w)
                (files w ++ match file with Some _ => [(rf, true)] | None => [] end)
                (events w ++ [SysOpen rf O_RDONLY file;
                              CallbackReturn file m (WithStack (open_error (volume w) rf))]))) /\
    (file = None <-> open_error (volume w) rf <> None) /\
    (forall f, file = Some f -> f = length (files w)).
Proof.
  destruct (Open_spec rf w) as (file & HO & Hnone & Hlen).
  exists file. split; [|split; assumption].
  unfold callback. cbn [snd]. rewrite HO. unfold emit. cbn.
  rewrite <- app_assoc. reflexivity.
Qed.

Lemma run_request_spec (rf m : string) (q : request) :
  forall fr w e fr' w',
    run_request q (callback rf m) (fr, w) = (e, (fr', w')) ->
    volume w' = volume w /\
    exists rest more,
      events w' = events w ++ rest /\
      Forall (callback_event (volume w) rf m) rest /\
      files w' = files w ++ more.
Proof.
  induction q as [err|k IH]; intros fr w e fr' w' Hrun; cbn in Hrun.
  - inversion Hrun; subst. split; [reflexivity|].
    exists [], []. rewrite !app_nil_r. repeat split. constructor.
  - destruct (callback_spec rf m fr w) as (file & Hcb & Hnone & Hlen).
    rewrite Hcb in Hrun.
    apply IH in Hrun. cbn in Hrun. destruct Hrun as (Hvol & rest & more & Hev & Hall & Hfiles).
    split; [exact Hvol|].
    eexists (_ :: _ :: rest), (_ ++ more).
    split; [rewrite Hev, <- app_assoc; reflexivity|].
    split; [|rewrite Hfiles, <- app_assoc; reflexivity].
    constructor; [cbn; auto|]. constructor; [cbn; auto|]. exact Hall.
Qed.

(** Whatever DoRequest does with the callback, [handleWaitFile] logs one
    call of it, then the callback's events, then at most one Close. *)
Lemma handleWaitFile_spec (rf url : string) (client : Client) (w : World) :
  forall e w',
    handleWaitFile ToLower platform DoRequest rf url client w = (e, w') ->
    let m := mime.TypeByExtension ToLower (init ToLower platform) (filepath.Ext rf) in
    volume w' = volume w /\
    e = fst (run_request (DoRequest url client) (callback rf m)
                         (Frame None None, emit (CallDoRequest url client) w)) /\
    exists rest tail,
      events w' = events w ++ CallDoRequest url client :: rest ++ tail /\
      Forall (callback_event (volume w) rf m) rest /\
      (tail = [] \/ exists f, tail = [SysClose f]).
Proof.
  intros e w' H m. unfold handleWaitFile in H. fold m in H.
  destruct (run_request _ _ _) as [e1 [fr w1]] eqn:Hrun.
  inversion H; subst e1 w'; clear H.
  cbn [fst].
  apply run_request_spec in Hrun. cbn in Hrun.
  destruct Hrun as (Hvol & rest & more & Hev & Hall & Hfiles).
  destruct (outfile fr) as [f|].
  - cbn. split; [exact Hvol|]. split; [reflexivity|].
    exists rest, [SysClose f]. rewrite Hev, <- !app_assoc. cbn. eauto.
  - split; [exact Hvol|]. split; [reflexivity|].
    exists rest, []. rewrite Hev, app_nil_r, <- app_assoc. cbn. eauto.
Qed.

End WorkerFacts.

(** ** File handles *)

Lemma is_open_open_close (w : World) (name : string) (evs : list event) (g : nat) :
  is_open g (Close (length (files w))
                   (mkWorld (volume w) (files w ++ [(name, true)]) evs))
  = is_open g w.
Proof.
  unfold is_open, Close, emit. cbn.
  rewrite (lookup_app_r (files w)) by lia. rewrite Nat.sub_diag. cbn.
  destruct (decide (g = length (files w))) as [->|Hne].
  - rewrite list_lookup_insert_eq by (rewrite length_app; cbn; lia).
    rewrite (lookup_ge_None_2 (files w)) by lia. reflexivity.
  - rewrite list_lookup_insert_ne by congruence.
    destruct (decide (g < length (files w))) as [Hlt|Hge].
    + rewrite lookup_app_l by exact Hlt. reflexivity.
    + rewrite (lookup_ge_None_2 (files w)) by lia.
      rewrite lookup_ge_None_2; [reflexivity|]. rewrite length_app. cbn. lia.
Qed.

Lemma invokes_at_most_0 (q : request) :
  invokes_at_most 0 q -> exists err, q = Return err.
Proof. inversion 1; subst. eauto. Qed.

(** ** Steps of the system *)

Lemma sent_app (g1 g2 : list grace_pc) : sent (g1 ++ g2) = sent g1 + sent g2.
Proof.
  induction g1 as [|p g1 IH]; [reflexivity|].
  destruct p; cbn; rewrite IH; reflexivity.
Qed.

Lemma sent_wake (g : list grace_pc) (i : nat) :
  g !! i = Some Sleeping -> sent (<[i := Sending]> g) = sent g.
Proof.
  revert i. induction g as [|p g IH]; intros [|i] H; cbn in *; try discriminate.
  - inversion H; subst. reflexivity.
  - destruct p; cbn; first [apply IH, H | f_equal; apply IH, H].
Qed.

Lemma sent_send (g : list grace_pc) (i : nat) :
  g !! i = Some Sending -> sent (<[i := Sent]> g) = S (sent g).
Proof.
  revert i. induction g as [|p g IH]; intros [|i] H; cbn in *; try discriminate.
  - inversion H; subst. reflexivity.
  - destruct p; cbn; first [apply IH, H | f_equal; apply IH, H].
Qed.

Lemma cap_recv (c : chan) : cap (recv c) = cap c.
Proof. unfold recv. destruct (0 <? len c); [|destruct (0 <? parked c)]; reflexivity. Qed.

Lemma cap_try_send (c : chan) : cap (try_send c) = cap c.
Proof. unfold try_send. destruct (has_room c); reflexivity. Qed.

Lemma ReadFile_spec (waitfile : string) (w : World) :
  exists data err,
    ReadFile waitfile w = (data, err, emit (SysReadFile waitfile) w) /\
    (err = None <-> volume w !! waitfile = Some (RegularFile true data)).
Proof.
  unfold ReadFile.
  destruct (volume w !! waitfile) as [[[|] c|]|]; do 2 eexists;
    (split; [reflexivity|]); split; congruence.
Qed.

Lemma Forall_snoc {A} (P : A -> Prop) (l : list A) (x : A) :
  Forall P l -> P x -> Forall P (l ++ [x]).
Proof. intros Hl Hx. apply Forall_app. split; [exact Hl | constructor; [exact Hx | constructor]]. Qed.

Lemma callback_event_reads vol rf m wf (e : event) :
  callback_event vol rf m e -> reads_only wf e.
Proof. destruct e; cbn; tauto. Qed.

Lemma callback_event_not_DoRequest vol rf m (e : event) :
  callback_event vol rf m e -> is_DoRequest e = false.
Proof. destruct e; cbn; tauto. Qed.

Lemma callback_event_not_timeout vol rf m (e : event) :
  callback_event vol rf m e -> is_timeout_log e = false.
Proof. destruct e; cbn; tauto. Qed.

Section LoopFacts.
Variable ToLower : string -> string.
Variable platform : mime.tables.
Variable DoRequest : string -> Client -> request.
Variables (double : bool) (waitfile url : string) (client : Client).

Local Abbreviation handle := (handleWaitFile ToLower platform DoRequest).
Local Abbreviation body := (select_body ToLower platform DoRequest waitfile url client).
Local Abbreviation step1 := (step ToLower platform DoRequest double waitfile url client).
Local Abbreviation run := (exec ToLower platform DoRequest double waitfile url client).

Lemma tick_readable (s : Sys) (data : string) :
  recv_ready (ticker s) = true ->
  volume (world s) !! waitfile = Some (RegularFile true data) ->
  body CaseTicker s =
    Some (set_main (Returned (fst (handle data url client (detected waitfile data (world s)))))
            (set_world (snd (handle data url client (detected waitfile data (world s))))
               (set_ticker (recv (ticker s)) s))).
Proof.
  intros Hready Hvol. unfold select_body. rewrite Hready.
  unfold ReadFile. cbn [world set_ticker]. rewrite Hvol. fold (detected waitfile data (world s)).
  destruct (handle data url client (detected waitfile data (world s))) as [e w3]. reflexivity.
Qed.

Lemma tick_unreadable (s : Sys) :
  recv_ready (ticker s) = true ->
  unreadable waitfile (volume (world s)) ->
  body CaseTicker s =
    Some (set_world (emit (SysReadFile waitfile) (world s))
            (set_ticker (recv (ticker s)) s)).
Proof.
  intros Hready Hun. unfold select_body. rewrite Hready.
  unfold ReadFile. cbn [world set_ticker].
  destruct (volume (world s) !! waitfile) as [[[|] c|]|] eqn:E; try reflexivity.
  exfalso. exact (Hun c E).
Qed.

Lemma readable_or_not (vol : gmap string node) :
  (exists data, vol !! waitfile = Some (RegularFile true data)) \/ unreadable waitfile vol.
Proof.
  unfold unreadable.
  destruct (vol !! waitfile) as [[[|] c|]|]; [left; eauto | right; congruence ..].
Qed.

Lemma step_Inv (a : action) (s s' : Sys) :
  step1 a s = Some s' -> Inv waitfile s -> Inv waitfile s'.
Proof.
  intros Hstep [Htick Hcap Hparked Hreads Hloop Hret].
  unfold step in Hstep. destruct (alive s) eqn:Halive; cbn in Hstep; [|discriminate].
  destruct a as [vol| | | | |c|i|i].
  - (* Plugin *) inversion Hstep; subst; clear Hstep. constructor; assumption.
  - (* RuntimeTick *) inversion Hstep; subst; clear Hstep. constructor; try assumption.
    cbn. rewrite cap_try_send. assumption.
  - (* Sigterm *)
    destruct (sigc s); inversion Hstep; subst; clear Hstep; constructor; assumption.
  - (* SigHandlerRun *)
    destruct (sigG s); [| |discriminate].
    + inversion Hstep; subst; clear Hstep. constructor; assumption.
    + destruct (sigc s) as [c|]; [|discriminate].
      destruct (recv_ready c); [|discriminate].
      inversion Hstep; subst; clear Hstep.
      constructor; cbn; try assumption.
      * apply Forall_snoc; [assumption | exact I].
      * intros Hsel. destruct (Hloop Hsel) as (H1 & H2 & H3 & H4).
        rewrite !count_app, H3, H4. cbn. auto.
      * intros e He. specialize (Hret e He). rewrite !count_app. cbn.
        rewrite !Nat.add_0_r. exact Hret.
  - (* TestSignal *)
    destruct double; inversion Hstep; subst; clear Hstep. constructor; assumption.
  - (* Select *)
    destruct (in_select s) eqn:Hsel; [|discriminate].
    destruct (Hloop eq_refl) as (Hopen & Hlen & Hdo & Hto).
    destruct c.
    + (* ticker *)
      destruct (recv_ready (ticker s)) eqn:Hready;
        [|unfold select_body in Hstep; rewrite Hready in Hstep; discriminate].
      destruct (readable_or_not (volume (world s))) as [[data Hvol]|Hun].
      * rewrite (tick_readable s data Hready Hvol) in Hstep.
        inversion Hstep; subst; clear Hstep.
        destruct (handle data url client (detected waitfile data (world s)))
          as [e w3] eqn:Hh.
        apply handleWaitFile_spec in Hh. cbn zeta in Hh.
        destruct Hh as (_ & _ & rest & tail & Hev & Hall & Htail).
        assert (Hcd : count is_DoRequest (rest ++ tail) = 0).
        { rewrite count_app.
          rewrite (callback_event_count _ _ _ _ _ (callback_event_not_DoRequest _ _ _) Hall).
          destruct Htail as [->|[f ->]]; reflexivity. }
        assert (Hct : count is_timeout_log (rest ++ tail) = 0).
        { rewrite count_app.
          rewrite (callback_event_count _ _ _ _ _ (callback_event_not_timeout _ _ _) Hall).
          destruct Htail as [->|[f ->]]; reflexivity. }
        constructor; cbn; try assumption.
        -- rewrite cap_recv. assumption.
        -- rewrite Hev. unfold detected, emit. cbn.
           apply Forall_app. split.
           ++ apply Forall_snoc; [apply Forall_snoc; [assumption | reflexivity] | exact I].
           ++ constructor; [exact I|]. apply Forall_app. split.
              ** eapply Forall_impl; [exact Hall|]. intros x. apply callback_event_reads.
              ** destruct Htail as [->|[f ->]]; repeat constructor.
        -- discriminate.
        -- intros e' _. left. rewrite Hev. unfold detected, emit. cbn.
           rewrite !(count_app _ (_ ++ _)), !(count_app _ (events (world s))), Hdo, Hto.
           cbn. rewrite Hcd, Hct. auto.
      * rewrite (tick_unreadable s Hready Hun) in Hstep.
        inversion Hstep; subst; clear Hstep.
        constructor; cbn; try assumption.
        -- rewrite cap_recv. assumption.
        -- apply Forall_snoc; [assumption | reflexivity].
        -- intros _. rewrite !count_app, Hdo, Hto. cbn. auto.
        -- intros e He. unfold in_select in Hsel. rewrite He in Hsel. discriminate.
    + (* signals *)
      cbn in Hstep. destruct (recv_ready (signals s)); [|discriminate].
      inversion Hstep; subst; clear Hstep.
      constructor; cbn; try assumption.
      * intros _. rewrite sent_app. cbn. rewrite Nat.add_0_r. auto.
      * intros e He. unfold in_select in Hsel. rewrite He in Hsel. discriminate.
    + (* stop *)
      cbn in Hstep. destruct (recv_ready (stop s)) eqn:Hready; [|discriminate].
      inversion Hstep; subst; clear Hstep.
      assert (Hpos : 0 < len (stop s)).
      { unfold recv_ready in Hready. rewrite Hparked, Hopen in Hready.
        destruct (len (stop s)); [cbn in Hready; discriminate | lia]. }
      constructor; cbn.
      * assumption.
      * unfold recv. destruct (0 <? len (stop s)); [|destruct (0 <? parked (stop s))]; cbn; assumption.
      * unfold recv. destruct (0 <? len (stop s)); [|destruct (0 <? parked (stop s))]; cbn; lia.
      * apply Forall_snoc; [assumption | exact I].
      * discriminate.
      * intros e He. inversion He; subst. right. rewrite !count_app, Hdo, Hto. cbn.
        repeat split; try reflexivity. lia.
  - (* SleepReturns *)
    destruct (graceG s !! i) as [[| |]|] eqn:Hi; try discriminate.
    inversion Hstep; subst; clear Hstep.
    constructor; cbn; try assumption.
    + rewrite (sent_wake _ _ Hi). assumption.
    + rewrite (sent_wake _ _ Hi). assumption.
  - (* StopSend *)
    destruct (graceG s !! i) as [[| |]|] eqn:Hi; try discriminate.
    destruct (closed (stop s)) eqn:Hclosed.
    + inversion Hstep; subst; clear Hstep. constructor; cbn; try assumption.
      intros Hsel. destruct (Hloop Hsel) as [H _]. discriminate H.
    + rewrite Hcap in Hstep. destruct (len (stop s) <=? 0) eqn:Hroom; [|discriminate].
      inversion Hstep; subst; clear Hstep.
      constructor; cbn; try assumption.
      * intros Hsel. destruct (Hloop Hsel) as (H1 & H2 & H3 & H4).
        rewrite (sent_send _ _ Hi). repeat split; try assumption. lia.
      * intros e He. destruct (Hret e He) as [H|(H1 & H2 & H3 & H4)]; [left; exact H|].
        right. rewrite (sent_send _ _ Hi). repeat split; try assumption. lia.
Qed.

Lemma Inv_init (vol : gmap string node) : Inv waitfile (GatherResults waitfile vol).
Proof.
  constructor; cbn; try reflexivity.
  - repeat constructor.
  - auto.
  - discriminate.
Qed.

Lemma exec_Inv (tr : list action) :
  forall s s', run tr s = Some s' -> Inv waitfile s -> Inv waitfile s'.
Proof.
  induction tr as [|a tr IH]; intros s s' Hrun Hinv; cbn in Hrun.
  - inversion Hrun; subst. exact Hinv.
  - destruct (step1 a s) as [s1|] eqn:Hstep; [|discriminate].
    eapply IH; [exact Hrun|]. eapply step_Inv; eassumption.
Qed.

Lemma reachable_Inv (vol : gmap string node) (tr : list action) (s : Sys) :
  run tr (GatherResults waitfile vol) = Some s -> Inv waitfile s.
Proof. intros H. eapply exec_Inv; [exact H | apply Inv_init]. Qed.

Lemma exec_app (tr1 tr2 : list action) (s : Sys) :
  run (tr1 ++ tr2) s =
    match run tr1 s with
    | Some s' => run tr2 s'
    | None => None
    end.
Proof.
  revert s. induction tr1 as [|a tr1 IH]; intros s; cbn; [reflexivity|].
  destruct (step1 a s); [apply IH | reflexivity].
Qed.

(** *** The volume is the plugin's *)

Lemma step_volume (a : action) (s s' : Sys) :
  step1 a s = Some s' ->
  volume (world s') = volume_after (volume (world s)) [a].
Proof.
  intros Hstep. unfold step in Hstep.
  destruct (alive s); cbn in Hstep; [|discriminate].
  destruct a as [vol| | | | |c|i|i]; cbn.
  - inversion Hstep; reflexivity.
  - inversion Hstep; reflexivity.
  - destruct (sigc s); inversion Hstep; reflexivity.
  - destruct (sigG s); [| |discriminate].
    + inversion Hstep; reflexivity.
    + destruct (sigc s) as [c|]; [|discriminate].
      destruct (recv_ready c); inversion Hstep; reflexivity.
  - destruct double; inversion Hstep; reflexivity.
  - destruct (in_select s); [|discriminate].
    destruct c.
    + destruct (recv_ready (ticker s)) eqn:Hready;
        [|unfold select_body in Hstep; rewrite Hready in Hstep; discriminate].
      destruct (readable_or_not (volume (world s))) as [[data Hvol]|Hun].
      * rewrite (tick_readable s data Hready Hvol) in Hstep.
        inversion Hstep; subst; clear Hstep. cbn.
        destruct (handle data url client (detected waitfile data (world s)))
          as [e w3] eqn:Hh.
        apply handleWaitFile_spec in Hh. destruct Hh as (Hv & _). exact Hv.
      * rewrite (tick_unreadable s Hready Hun) in Hstep.
        inversion Hstep; reflexivity.
    + cbn in Hstep. destruct (recv_ready (signals s)); inversion Hstep; reflexivity.
    + cbn in Hstep. destruct (recv_ready (stop s)); inversion Hstep; reflexivity.
  - destruct (graceG s !! i) as [[| |]|]; inversion Hstep; reflexivity.
  - destruct (graceG s !! i) as [[| |]|]; try discriminate.
    destruct (closed (stop s)); [inversion Hstep; reflexivity|].
    destruct (cap (stop s)) as [|n]; [discriminate|].
    destruct (len (stop s) <=? n); inversion Hstep; reflexivity.
Qed.

Lemma volume_after_cons (vol : gmap string node) (a : action) (tr : list action) :
  volume_after vol (a :: tr) = volume_after (volume_after vol [a]) tr.
Proof. destruct a; reflexivity. Qed.

Lemma exec_volume (tr : list action) :
  forall s s', run tr s = Some s' ->
    volume (world s') = volume_after (volume (world s)) tr.
Proof.
  induction tr as [|a tr IH]; intros s s' Hrun; cbn in Hrun.
  - inversion Hrun; reflexivity.
  - destruct (step1 a s) as [s1|] eqn:Hstep; [|discriminate].
    rewrite volume_after_cons, <- (step_volume _ _ _ Hstep). apply IH. exact Hrun.
Qed.

Lemma volume_after_unreadable (tr : list action) :
  forall vol, unreadable waitfile vol -> never_readable waitfile tr ->
    unreadable waitfile (volume_after vol tr).
Proof.
  induction tr as [|a tr IH]; intros vol Hvol Htr; [exact Hvol|].
  inversion Htr as [|? ? Ha Htr']; subst.
  destruct a; cbn; apply IH; assumption.
Qed.

(** *** Without a readable waitfile nothing is transmitted *)

Lemma step_no_transmit (a : action) (s s' : Sys) :
  step1 a s = Some s' ->
  unreadable waitfile (volume (world s)) ->
  count is_DoRequest (events (world s')) = count is_DoRequest (events (world s)).
Proof.
  intros Hstep Hun. unfold step in Hstep.
  destruct (alive s); cbn in Hstep; [|discriminate].
  destruct a as [vol| | | | |c|i|i].
  - inversion Hstep; reflexivity.
  - inversion Hstep; reflexivity.
  - destruct (sigc s); inversion Hstep; reflexivity.
  - destruct (sigG s); [| |discriminate].
    + inversion Hstep; reflexivity.
    + destruct (sigc s) as [c|]; [|discriminate].
      destruct (recv_ready c); inversion Hstep; subst; cbn.
      rewrite count_app. cbn. lia.
  - destruct double; inversion Hstep; reflexivity.
  - destruct (in_select s); [|discriminate].
    destruct c.
    + destruct (recv_ready (ticker s)) eqn:Hready;
        [|unfold select_body in Hstep; rewrite Hready in Hstep; discriminate].
      rewrite (tick_unreadable s Hready Hun) in Hstep.
      inversion Hstep; subst; cbn. rewrite count_app. cbn. lia.
    + cbn in Hstep. destruct (recv_ready (signals s)); inversion Hstep; reflexivity.
    + cbn in Hstep. destruct (recv_ready (stop s)); inversion Hstep; subst; cbn.
      rewrite count_app. cbn. lia.
  - destruct (graceG s !! i) as [[| |]|]; inversion Hstep; reflexivity.
  - destruct (graceG s !! i) as [[| |]|]; try discriminate.
    destruct (closed (stop s)); [inversion Hstep; reflexivity|].
    destruct (cap (stop s)) as [|n]; [discriminate|].
    destruct (len (stop s) <=? n); inversion Hstep; reflexivity.
Qed.

Lemma exec_no_transmit (tr : list action) :
  forall s s', run tr s = Some s' ->
    unreadable waitfile (volume (world s)) ->
    never_readable waitfile tr ->
    count is_DoRequest (events (world s')) = count is_DoRequest (events (world s)).
Proof.
  induction tr as [|a tr IH]; intros s s' Hrun Hun Htr; cbn in Hrun.
  - inversion Hrun; reflexivity.
  - destruct (step1 a s) as [s1|] eqn:Hstep; [|discriminate].
    inversion Htr as [|? ? Ha Htr']; subst.
    rewrite (IH s1 s' Hrun), (step_no_transmit _ _ _ Hstep Hun); auto.
    rewrite (step_volume _ _ _ Hstep). destruct a; cbn; assumption.
Qed.

(** *** The grace goroutines *)

Lemma graceG_grows (a : action) (s s' : Sys) :
  step1 a s = Some s' -> graceG s <> [] -> graceG s' <> [].
Proof.
  intros Hstep Hne. unfold step in Hstep.
  destruct (alive s); cbn in Hstep; [|discriminate].
  destruct a as [vol| | | | |c|i|i].
  - inversion Hstep; subst; exact Hne.
  - inversion Hstep; subst; exact Hne.
  - destruct (sigc s); inversion Hstep; subst; exact Hne.
  - destruct (sigG s); [| |discriminate].
    + inversion Hstep; subst; exact Hne.
    + destruct (sigc s) as [c|]; [|discriminate].
      destruct (recv_ready c); inversion Hstep; subst; exact Hne.
  - destruct double; inversion Hstep; subst; exact Hne.
  - destruct (in_select s); [|discriminate].
    destruct c; cbn in Hstep.
    + destruct (recv_ready (ticker s)); [|discriminate].
      destruct (ReadFile waitfile (world s)) as [[data [e|]] w1].
      * inversion Hstep; subst; exact Hne.
      * destruct (handle data url client _) as [e w3].
        inversion Hstep; subst; exact Hne.
    + destruct (recv_ready (signals s)); inversion Hstep; subst; cbn.
      destruct (graceG s); [congruence | discriminate].
    + destruct (recv_ready (stop s)); inversion Hstep; subst; exact Hne.
  - destruct (graceG s !! i) as [[| |]|]; inversion Hstep; subst; cbn.
    destruct (graceG s); [congruence|]. destruct i; discriminate.
  - destruct (graceG s !! i) as [[| |]|]; try discriminate.
    destruct (closed (stop s)); [inversion Hstep; subst; exact Hne|].
    destruct (cap (stop s)) as [|n]; [discriminate|].
    destruct (len (stop s) <=? n); inversion Hstep; subst; cbn.
    destruct (graceG s); [congruence|]. destruct i; discriminate.
Qed.
End LoopFacts.

Section AsWritten.
Variable ToLower : string -> string.
Variable platform : mime.tables.
Variable DoRequest : string -> Client -> request.
Variables (waitfile url : string) (client : Client).

Local Abbreviation step0 := (step ToLower platform DoRequest false waitfile url client).
Local Abbreviation run0 := (exec ToLower platform DoRequest false waitfile url client).

Lemma step_quiet (a : action) (s s' : Sys) :
  step0 a s = Some s' -> quiet s -> quiet s'.
Proof.
  intros Hstep (Hsig & Hg & Hstop). unfold step in Hstep.
  destruct (alive s); cbn in Hstep; [|discriminate].
  destruct a as [vol| | | | |c|i|i].
  - inversion Hstep; subst; repeat split; assumption.
  - inversion Hstep; subst; repeat split; assumption.
  - destruct (sigc s); inversion Hstep; subst; repeat split; assumption.
  - destruct (sigG s); [| |discriminate].
    + inversion Hstep; subst; repeat split; assumption.
    + destruct (sigc s) as [c|]; [|discriminate].
      destruct (recv_ready c); inversion Hstep; subst; repeat split; assumption.
  - discriminate.
  - destruct (in_select s); [|discriminate].
    destruct c; cbn in Hstep.
    + destruct (recv_ready (ticker s)); [|discriminate].
      destruct (ReadFile waitfile (world s)) as [[data [e|]] w1].
      * inversion Hstep; subst; repeat split; assumption.
      * destruct (handleWaitFile ToLower platform DoRequest data url client _) as [e w3].
        inversion Hstep; subst; repeat split; assumption.
    + rewrite Hsig in Hstep. discriminate.
    + rewrite Hstop in Hstep. discriminate.
  - rewrite Hg in Hstep. discriminate.
  - rewrite Hg in Hstep. discriminate.
Qed.

Lemma exec_quiet (tr : list action) :
  forall s s', run0 tr s = Some s' -> quiet s -> quiet s'.
Proof.
  induction tr as [|a tr IH]; intros s s' Hrun Hq; cbn in Hrun.
  - inversion Hrun; subst. exact Hq.
  - destruct (step0 a s) as [s1|] eqn:Hstep; [|discriminate].
    eapply IH; [exact Hrun|]. eapply step_quiet; eassumption.
Qed.
End AsWritten.

(** * handleWaitFile *)

Section Transmission.
Variable ToLower : string -> string.
Variable platform : mime.tables.
Variable DoRequest : string -> Client -> request.

Local Abbreviation handle := (handleWaitFile ToLower platform DoRequest).
Local Abbreviation mimeOf rf :=
  (mime.TypeByExtension ToLower (init ToLower platform) (filepath.Ext rf)).

(** C8. A result path ending in ".gz" is transmitted as "application/gzip":
    that is the content type the callback hands to DoRequest.  For an
    extension that neither table of package mime knows, the content type is
    the empty string, nothing fails on that account, and DoRequest is
    called all the same: its outcome is the outcome of [handleWaitFile]. *)
Theorem content_type_resolution (resultFile url : string) (client : Client) (w : World) :
  (forall p,
     mimeOf (p ++ ".gz") = "application/gzip"%string /\
     fst (handle (p ++ ".gz") url client w) =
       fst (run_request (DoRequest url client)
              (callback (p ++ ".gz") "application/gzip")
              (Frame None None, emit (CallDoRequest url client) w))) /\
  (unrecognized ToLower (init ToLower platform) (filepath.Ext resultFile) ->
     mimeOf resultFile = EmptyString /\
     fst (handle resultFile url client w) =
       fst (run_request (DoRequest url client)
              (callback resultFile EmptyString)
              (Frame None None, emit (CallDoRequest url client) w)) /\
     count is_DoRequest (events (snd (handle resultFile url client w)))
       = count is_DoRequest (events w) + 1).
Proof.
  split.
  - intros p.
    assert (Hm : mimeOf (p ++ ".gz") = "application/gzip"%string)
      by (rewrite Ext_gz; apply TypeByExtension_gz).
    split; [exact Hm|].
    destruct (handle (p ++ ".gz") url client w) as [e w'] eqn:Hh.
    apply handleWaitFile_spec in Hh. cbn zeta in Hh.
    destruct Hh as (_ & He & _). rewrite Hm in He. exact He.
  - intros [Hcase Hlower].
    assert (Hm : mimeOf resultFile = EmptyString).
    { unfold mime.TypeByExtension, mime.index. rewrite Hcase.
      cbn -[init mime.lower_ascii filepath.Ext].
      unfold lower_key in Hlower.
      destruct (mime.lower_ascii (filepath.Ext resultFile)); rewrite Hlower; reflexivity. }
    split; [exact Hm|].
    destruct (handle resultFile url client w) as [e w'] eqn:Hh.
    apply handleWaitFile_spec in Hh. cbn zeta in Hh.
    destruct Hh as (_ & He & rest & tail & Hev & Hall & Htail).
    rewrite Hm in He. split; [exact He|].
    cbn [snd]. rewrite Hev, count_app. cbn. rewrite count_app.
    rewrite (callback_event_count _ _ _ _ _ (callback_event_not_DoRequest _ _ _) Hall).
    destruct Htail as [->|[f ->]]; cbn; lia.
Qed.

(** C10. [handleWaitFile] calls DoRequest whatever the state of the
    artifact: the call is the first thing it does and it is the only one,
    and what DoRequest returns is what [handleWaitFile] returns.  When the
    artifact cannot be opened, each invocation of the callback hands
    DoRequest a nil file and the open error wrapped by [errors.WithStack]. *)
Theorem DoRequest_called_unconditionally
    (resultFile url : string) (client : Client) (w : World) :
  fst (handle resultFile url client w) =
    fst (run_request (DoRequest url client)
           (callback resultFile (mimeOf resultFile))
           (Frame None None, emit (CallDoRequest url client) w)) /\
  exists rest,
    events (snd (handle resultFile url client w))
      = events w ++ CallDoRequest url client :: rest /\
    count is_DoRequest rest = 0 /\
    forall cause,
      open_error (volume w) resultFile = Some cause ->
      (forall fr w0, volume w0 = volume w ->
         fst (callback resultFile (mimeOf resultFile) (fr, w0))
           = (None, mimeOf resultFile, Some (withStack cause))) /\
      (forall r m err, In (CallbackReturn r m err) rest ->
         r = None /\ m = mimeOf resultFile /\ err = Some (withStack cause)).
Proof.
  destruct (handle resultFile url client w) as [e w'] eqn:Hh.
  apply handleWaitFile_spec in Hh. cbn zeta in Hh.
  destruct Hh as (_ & He & rest & tail & Hev & Hall & Htail).
  split; [exact He|].
  exists (rest ++ tail). split; [exact Hev|]. split.
  - rewrite count_app.
    rewrite (callback_event_count _ _ _ _ _ (callback_event_not_DoRequest _ _ _) Hall).
    destruct Htail as [->|[f ->]]; reflexivity.
  - intros cause Hcause. split.
    + intros fr w0 Hw0.
      destruct (callback_spec resultFile (mimeOf resultFile) fr w0)
        as (file & Hcb & Hnone & _).
      rewrite Hcb. cbn [fst]. rewrite Hw0, Hcause in *.
      assert (file = None) as -> by (apply Hnone; discriminate).
      reflexivity.
    + intros r m err Hin. apply in_app_or in Hin. destruct Hin as [Hin|Hin].
      * rewrite List.Forall_forall in Hall. specialize (Hall _ Hin). cbn in Hall.
        destruct Hall as (Hm & Herr & Hr). rewrite Hcause in *.
        repeat split; [apply Hr; discriminate | exact Hm | exact Herr].
      * destruct Htail as [->|[f ->]]; cbn in Hin; [contradiction|].
        destruct Hin as [Hin|[]]; discriminate.
Qed.

(** C5. When DoRequest invokes the callback at most once, every file
    [handleWaitFile] opens is closed exactly once before it returns and
    nothing else is closed: for each handle the opens and the closes in
    the events of the call are equal in number and at most one, and the
    set of open files is the same after the call as before.  This covers
    the three ways out: the artifact opened and DoRequest returning nil,
    the artifact opened and DoRequest returning an error (one Close each),
    and the open failing (no handle, no Close). *)
Theorem opened_artifact_closed_once
    (resultFile url : string) (client : Client) (w : World) :
  invokes_at_most 1 (DoRequest url client) ->
  exists new,
    events (snd (handle resultFile url client w)) = events w ++ new /\
    (forall f, count (opens f) new = count (closes f) new /\
               count (closes f) new <= 1) /\
    (forall f, is_open f (snd (handle resultFile url client w)) = is_open f w) /\
    (open_error (volume w) resultFile <> None ->
       forall f, count (closes f) new = 0).
Proof.
  intros Hq. unfold handleWaitFile.
  set (m := mimeOf resultFile).
  inversion Hq as [n err Hn Heq | n k Hk Hn Heq]; subst.
  - (* DoRequest returns without asking for the stream *)
    cbn. exists [CallDoRequest url client].
    repeat split; cbn; auto.
  - cbn [run_request].
    destruct (callback_spec resultFile m (Frame None None)
                (emit (CallDoRequest url client) w)) as (file & Hcb & Hnone & Hlen).
    rewrite Hcb. cbn [volume emit files events].
    destruct (invokes_at_most_0 _ (Hk (file, m, WithStack (open_error (volume w) resultFile))))
      as [err Herr].
    rewrite Herr. cbn [run_request outfile snd].
    destruct file as [f|].
    + specialize (Hlen f eq_refl). cbn in Hlen. subst f.
      eexists. split; [cbn; rewrite <- !app_assoc; reflexivity|].
      split; [|split].
      * intros f. cbn. destruct (length (files w) =? f); cbn; auto.
      * intros g. cbn [emit volume files events].
        apply (is_open_open_close w resultFile).
      * intros Hfail. exfalso. cbn in Hnone.
        destruct Hnone as [_ Hnone]. specialize (Hnone Hfail). discriminate.
    + eexists. split; [cbn; rewrite <- !app_assoc; reflexivity|].
      split; [|split].
      * intros f. cbn. auto.
      * intros g. unfold is_open. cbn. rewrite app_nil_r. reflexivity.
      * intros _ f. reflexivity.
Qed.
End Transmission.

Lemma content_type_resolution_witness :
  unrecognized Demo.ToLower (init Demo.ToLower Demo.platform) (filepath.Ext "/tmp/results.xyz") /\
  mime.TypeByExtension Demo.ToLower (init Demo.ToLower Demo.platform)
    (filepath.Ext "/tmp/results.xyz") = EmptyString.
Proof.
  assert (H : unrecognized Demo.ToLower (init Demo.ToLower Demo.platform)
                (filepath.Ext "/tmp/results.xyz")) by (split; vm_compute; reflexivity).
  split; [exact H|].
  exact (proj1 (proj2 (content_type_resolution Demo.ToLower Demo.platform Demo.DoRequest
                         "/tmp/results.xyz" Demo.url Demo.client
                         (Demo.world0 Demo.vol_missing)) H)).
Defined.

Lemma DoRequest_called_unconditionally_witness :
  open_error Demo.vol_missing "/tmp/results.xyz"
    = Some (PathError "open" "/tmp/results.xyz" ENOENT) /\
  fst (callback "/tmp/results.xyz"
         (mime.TypeByExtension Demo.ToLower (init Demo.ToLower Demo.platform)
            (filepath.Ext "/tmp/results.xyz"))
         (Frame None None, Demo.world0 Demo.vol_missing))
  = (None,
     mime.TypeByExtension Demo.ToLower (init Demo.ToLower Demo.platform)
       (filepath.Ext "/tmp/results.xyz"),
     Some (withStack (PathError "open" "/tmp/results.xyz" ENOENT))).
Proof.
  assert (H : open_error Demo.vol_missing "/tmp/results.xyz"
              = Some (PathError "open" "/tmp/results.xyz" ENOENT)) by (vm_compute; reflexivity).
  split; [exact H|].
  destruct (DoRequest_called_unconditionally Demo.ToLower Demo.platform Demo.DoRequest
              "/tmp/results.xyz" Demo.url Demo.client (Demo.world0 Demo.vol_missing))
    as (_ & rest & _ & _ & Hfail).
  exact (proj1 (Hfail _ H) (Frame None None) (Demo.world0 Demo.vol_missing) eq_refl).
Defined.

Lemma opened_artifact_closed_once_witness :
  invokes_at_most 1 (Demo.DoRequest Demo.url Demo.client) /\
  exists new,
    events (snd (handleWaitFile Demo.ToLower Demo.platform Demo.DoRequest
                   "/tmp/results.tar.gz" Demo.url Demo.client (Demo.world0 Demo.vol)))
      = events (Demo.world0 Demo.vol) ++ new /\
    count (opens 0) new = 1 /\ count (closes 0) new = 1.
Proof.
  assert (H : invokes_at_most 1 (Demo.DoRequest Demo.url Demo.client)).
  { unfold Demo.DoRequest. constructor. intros [[r m] e]. constructor. }
  split; [exact H|].
  destruct (opened_artifact_closed_once Demo.ToLower Demo.platform Demo.DoRequest
              "/tmp/results.tar.gz" Demo.url Demo.client (Demo.world0 Demo.vol) H)
    as (new & Hev & Hcount & _).
  exists new. split; [exact Hev|].
  assert (Hnew : new = [CallDoRequest Demo.url Demo.client;
                        SysOpen "/tmp/results.tar.gz" O_RDONLY (Some 0);
                        CallbackReturn (Some 0) "application/gzip" None;
                        SysClose 0]).
  { vm_compute in Hev. inversion Hev. reflexivity. }
  rewrite Hnew. split; reflexivity.
Defined.

(** The hypothesis of C5 on DoRequest is needed: against a DoRequest that
    asks for the stream twice, the first file stays open. *)
Remark second_invocation_leaks :
  let w := snd (handleWaitFile Demo.ToLower Demo.platform Demo.DoRequest_retrying
                  "/tmp/results.tar.gz" Demo.url Demo.client (Demo.world0 Demo.vol)) in
  is_open 0 w = true /\ is_open 1 w = false /\
  count (opens 0) (events w) = 1 /\ count (closes 0) (events w) = 0.
Proof. vm_compute. repeat split; reflexivity. Qed.

(** * The loop of GatherResults *)

Section Loop.
Variable ToLower : string -> string.
Variable platform : mime.tables.
Variable DoRequest : string -> Client -> request.
Variables (waitfile url : string) (client : Client).

Local Abbreviation handle := (handleWaitFile ToLower platform DoRequest).
Local Abbreviation mimeOf rf :=
  (mime.TypeByExtension ToLower (init ToLower platform) (filepath.Ext rf)).
Local Abbreviation step1 double := (step ToLower platform DoRequest double waitfile url client).
Local Abbreviation run double := (exec ToLower platform DoRequest double waitfile url client).

(** C9. In every execution the volume is what the plugin made it: no step
    of [GatherResults], of [handleWaitFile] or of their goroutines changes
    it.  The system calls they issue are reads of the waitfile, opens with
    O_RDONLY and closes. *)
Theorem watcher_only_reads (double : bool) (vol : gmap string node)
    (tr : list action) (s : Sys) :
  run double tr (GatherResults waitfile vol) = Some s ->
  volume (world s) = volume_after vol tr /\
  Forall (reads_only waitfile) (events (world s)) /\
  (forall resultFile w, volume (snd (handle resultFile url client w)) = volume w).
Proof.
  intros Hrun. split; [|split].
  - apply exec_volume in Hrun. exact Hrun.
  - apply reachable_Inv in Hrun. apply Hrun.
  - intros resultFile w.
    destruct (handle resultFile url client w) as [e w'] eqn:Hh.
    apply handleWaitFile_spec in Hh. apply Hh.
Qed.

(** C2. In every execution of the program as written, the channel that
    [sigHandler] returned is as it was made: no value in it, no sender
    waiting on it, not closed.  So [case <-signals] is never ready, no grace
    goroutine exists, and [case <-stop] is never ready either. *)
Theorem signals_never_signaled (vol : gmap string node) (tr : list action) (s : Sys) :
  run false tr (GatherResults waitfile vol) = Some s ->
  signals s = make 0 /\
  recv_ready (signals s) = false /\
  graceG s = [] /\
  step1 false (Select CaseSignals) s = None /\
  step1 false (Select CaseStop) s = None.
Proof.
  intros Hrun.
  assert (Hq : quiet s).
  { eapply exec_quiet; [exact Hrun|]. repeat split. }
  destruct Hq as (Hsig & Hg & Hstop).
  split; [exact Hsig|]. split; [rewrite Hsig; reflexivity|]. split; [exact Hg|].
  unfold step, select_body. rewrite Hsig, Hstop. cbn.
  destruct (alive s); cbn; [|split; reflexivity].
  destruct (in_select s); split; reflexivity.
Qed.

(** C6. Whatever error the read of the waitfile returns, the tick leaves
    the loop where it was: the only changes are that the tick is consumed
    and the read is on record; the error is neither returned nor logged,
    and the next tick of the ticker makes [case <-ticker] ready again.
    A read without error ends the loop. *)
Theorem read_error_keeps_polling (double : bool) (vol : gmap string node)
    (tr : list action) (s : Sys) :
  run double tr (GatherResults waitfile vol) = Some s ->
  in_select s = true -> alive s = true -> recv_ready (ticker s) = true ->
  (forall e,
     snd (fst (ReadFile waitfile (world s))) = Some e ->
     let s' := set_world (emit (SysReadFile waitfile) (world s))
                 (set_ticker (recv (ticker s)) s) in
     step1 double (Select CaseTicker) s = Some s' /\
     main s' = InSelect /\
     exists s'', step1 double RuntimeTick s' = Some s'' /\
                 in_select s'' = true /\ recv_ready (ticker s'') = true) /\
  (snd (fst (ReadFile waitfile (world s))) = None ->
     exists s' e, step1 double (Select CaseTicker) s = Some s' /\ main s' = Returned e).
Proof.
  intros Hrun Hsel Halive Hready.
  apply reachable_Inv in Hrun. destruct Hrun as [Hcap _ _ _ _ _].
  destruct (ReadFile_spec waitfile (world s)) as (data & err & HR & Hiff).
  rewrite HR. cbn [fst snd]. split.
  - intros e ->.
    assert (Hun : unreadable waitfile (volume (world s))).
    { intros c Hc. destruct (ReadFile_spec waitfile (world s)) as (d & er & HR' & Hiff').
      rewrite HR in HR'. inversion HR'; subst.
      unfold ReadFile in HR. rewrite Hc in HR. discriminate. }
    cbn zeta. split; [|split].
    + unfold step. rewrite Halive, Hsel. cbn [negb]. apply tick_unreadable; assumption.
    + cbn. unfold in_select in Hsel. destruct (main s); [reflexivity | discriminate].
    + eexists. split; [unfold step; cbn [alive set_world set_ticker]; rewrite Halive; reflexivity|].
      split; [exact Hsel|]. cbn [ticker set_ticker set_world].
      unfold try_send, has_room. rewrite cap_recv, Hcap.
      destruct (len (recv (ticker s)) <? 1) eqn:Hlt.
      * unfold recv_ready, send. cbn. rewrite Nat.add_1_r. reflexivity.
      * apply Nat.ltb_ge in Hlt. unfold recv_ready.
        destruct (len (recv (ticker s))); [lia | reflexivity].
  - intros ->. pose proof (proj1 Hiff eq_refl) as Hvol.
    do 2 eexists. unfold step. rewrite Halive, Hsel. cbn [negb].
    rewrite (tick_readable ToLower platform DoRequest waitfile url client s data Hready Hvol).
    split; reflexivity.
Qed.

(** What a tick does once the waitfile can be read. *)
Lemma tick_transmits (double : bool) (s : Sys) (data : string) :
  Inv waitfile s ->
  in_select s = true -> alive s = true -> recv_ready (ticker s) = true ->
  volume (world s) !! waitfile = Some (RegularFile true data) ->
  exists s' rest tail,
    step1 double (Select CaseTicker) s = Some s' /\
    main s' = Returned (fst (run_request (DoRequest url client)
                               (callback data (mimeOf data))
                               (Frame None None,
                                emit (CallDoRequest url client)
                                     (detected waitfile data (world s))))) /\
    events (world s') =
      events (world s) ++
      [SysReadFile waitfile;
       Info "Detected done file, transmitting result file" "resultFile" data;
       CallDoRequest url client] ++ rest ++ tail /\
    Forall (callback_event (volume (world s)) data (mimeOf data)) rest /\
    (tail = [] \/ exists f, tail = [SysClose f]) /\
    count is_DoRequest (events (world s')) = 1 /\
    count is_timeout_log (events (world s')) = 0 /\
    stop s' = stop s /\ graceG s' = graceG s.
Proof.
  intros Hinv Hsel Halive Hready Hvol.
  destruct (inv_loop _ _ Hinv Hsel) as (_ & _ & Hdo & Hto).
  destruct (handle data url client (detected waitfile data (world s))) as [e w3] eqn:Hh.
  pose proof (tick_readable ToLower platform DoRequest waitfile url client s data Hready Hvol)
    as Hbody.
  rewrite Hh in Hbody. cbn [fst snd] in Hbody.
  apply handleWaitFile_spec in Hh. cbn zeta in Hh.
  destruct Hh as (_ & He & rest & tail & Hev & Hall & Htail).
  assert (Hevents : events w3 = events (world s) ++
      [SysReadFile waitfile;
       Info "Detected done file, transmitting result file" "resultFile" data;
       CallDoRequest url client] ++ rest ++ tail).
  { rewrite Hev. unfold detected, emit. cbn. rewrite <- !app_assoc. reflexivity. }
  assert (Hrest_do : count is_DoRequest (rest ++ tail) = 0).
  { rewrite count_app.
    rewrite (callback_event_count _ _ _ _ _ (callback_event_not_DoRequest _ _ _) Hall).
    destruct Htail as [->|[f ->]]; reflexivity. }
  assert (Hrest_to : count is_timeout_log (rest ++ tail) = 0).
  { rewrite count_app.
    rewrite (callback_event_count _ _ _ _ _ (callback_event_not_timeout _ _ _) Hall).
    destruct Htail as [->|[f ->]]; reflexivity. }
  eexists _, rest, tail. split.
  { unfold step. rewrite Halive, Hsel. cbn [negb]. exact Hbody. }
  cbn [main world stop graceG set_main set_world set_ticker].
  split; [rewrite He; reflexivity|].
  split; [exact Hevents|]. split; [exact Hall|]. split; [exact Htail|].
  rewrite Hevents. split; [|split; [|split; reflexivity]].
  - rewrite count_app, Hdo. cbn. rewrite Hrest_do. reflexivity.
  - rewrite count_app, Hto. cbn. rewrite Hrest_to. reflexivity.
Qed.

(** C1. In any execution, when a tick finds the waitfile readable and its
    content names a readable file, [GatherResults] returns on that tick
    what DoRequest returned (nil when DoRequest succeeds); DoRequest was
    called once in the whole execution, with the url and the client, and
    whenever it asked for the stream it got an open file, the content type
    [TypeByExtension(Ext(content))] and a nil error. *)
Theorem readable_result_transmitted_once (double : bool) (vol : gmap string node)
    (tr : list action) (s : Sys) (data content : string) :
  run double tr (GatherResults waitfile vol) = Some s ->
  in_select s = true -> alive s = true -> recv_ready (ticker s) = true ->
  volume (world s) !! waitfile = Some (RegularFile true data) ->
  volume (world s) !! data = Some (RegularFile true content) ->
  exists s' new,
    step1 double (Select CaseTicker) s = Some s' /\
    main s' = Returned (fst (run_request (DoRequest url client)
                               (callback data (mimeOf data))
                               (Frame None None,
                                emit (CallDoRequest url client)
                                     (detected waitfile data (world s))))) /\
    events (world s') = events (world s) ++ new /\
    count is_DoRequest (events (world s')) = 1 /\
    In (CallDoRequest url client) new /\
    (forall r m err, In (CallbackReturn r m err) new ->
       m = mimeOf data /\ err = None /\ r <> None).
Proof.
  intros Hrun Hsel Halive Hready Hvol Hart.
  apply reachable_Inv in Hrun.
  destruct (tick_transmits double s data Hrun Hsel Halive Hready Hvol)
    as (s' & rest & tail & Hstep & Hmain & Hev & Hall & Htail & Hdo & _).
  exists s'. eexists. split; [exact Hstep|]. split; [exact Hmain|].
  split; [exact Hev|]. split; [exact Hdo|]. split.
  - cbn. auto.
  - intros r m err Hin. cbn in Hin.
    destruct Hin as [Hin|[Hin|[Hin|Hin]]]; try discriminate.
    apply in_app_or in Hin. destruct Hin as [Hin|Hin].
    + rewrite List.Forall_forall in Hall. specialize (Hall _ Hin). cbn in Hall.
      unfold open_error in Hall. rewrite Hart in Hall. cbn in Hall.
      destruct Hall as (Hm & Herr & Hr). repeat split; [exact Hm | exact Herr |].
      intros Hnone. apply Hr in Hnone. apply Hnone. reflexivity.
    + destruct Htail as [->|[f ->]]; cbn in Hin; [contradiction|].
      destruct Hin as [Hin|[]]; discriminate.
Qed.

(** C7. After the signal branch has run (a grace goroutine exists) and as
    long as the loop has not taken [case <-stop], a tick is still served:
    one that finds the waitfile readable calls DoRequest (once in the whole
    execution) and returns its outcome, without the timeout line in the log
    and without closing [stop]; one that does not leaves the loop in the
    select with its grace goroutines as they were. *)
Theorem late_result_preempts_timeout (double : bool) (vol : gmap string node)
    (tr : list action) (s : Sys) :
  run double tr (GatherResults waitfile vol) = Some s ->
  graceG s <> [] ->
  in_select s = true -> alive s = true -> recv_ready (ticker s) = true ->
  (forall data,
     volume (world s) !! waitfile = Some (RegularFile true data) ->
     exists s',
       step1 double (Select CaseTicker) s = Some s' /\
       main s' = Returned (fst (run_request (DoRequest url client)
                                  (callback data (mimeOf data))
                                  (Frame None None,
                                   emit (CallDoRequest url client)
                                        (detected waitfile data (world s))))) /\
       count is_DoRequest (events (world s')) = 1 /\
       count is_timeout_log (events (world s')) = 0 /\
       closed (stop s') = false) /\
  (unreadable waitfile (volume (world s)) ->
     exists s',
       step1 double (Select CaseTicker) s = Some s' /\
       in_select s' = true /\ graceG s' = graceG s /\ stop s' = stop s).
Proof.
  intros Hrun Hgrace Hsel Halive Hready.
  apply reachable_Inv in Hrun. split.
  - intros data Hvol.
    destruct (tick_transmits double s data Hrun Hsel Halive Hready Hvol)
      as (s' & rest & tail & Hstep & Hmain & _ & _ & _ & Hdo & Hto & Hstop & _).
    exists s'. repeat split; try assumption.
    rewrite Hstop. apply (inv_loop _ _ Hrun Hsel).
  - intros Hun. eexists. split.
    + unfold step. rewrite Halive, Hsel. cbn [negb].
      apply tick_unreadable; assumption.
    + repeat split. exact Hsel.
Qed.

(** Once a grace goroutine exists, the loop can always be brought to its
    timeout return by the expiry moves alone. *)
Lemma grace_period_runs_out (double : bool) (s : Sys) :
  Inv waitfile s ->
  graceG s <> [] -> in_select s = true -> alive s = true ->
  exists tr' s',
    length tr' <= 3 /\ Forall expiry tr' /\
    run double tr' s = Some s' /\
    main s' = Returned None /\
    count is_DoRequest (events (world s')) = count is_DoRequest (events (world s)).
Proof.
  intros Hinv Hgrace Hsel Halive.
  destruct Hinv as [_ Hcap Hparked _ Hloop _].
  destruct (Hloop Hsel) as (Hopen & Hlen & _).
  destruct s as [w al tk sg sc st sG gG mn]. cbn in *. subst al.
  destruct mn as [|e]; [clear Hsel|discriminate].
  destruct st as [c n pk cl]. cbn in *. subst c pk cl.
  destruct n as [|n].
  - (* nothing on stop yet: the first grace goroutine has not sent *)
    destruct gG as [|p g]; [congruence|].
    destruct p; cbn in Hlen; [| |discriminate].
    + exists [SleepReturns 0; StopSend 0; Select CaseStop]. eexists.
      split; [cbn; lia|]. split; [repeat constructor|].
      cbn. split; [reflexivity|]. split; [reflexivity|].
      cbn. rewrite count_app. cbn. lia.
    + exists [StopSend 0; Select CaseStop]. eexists.
      split; [cbn; lia|]. split; [repeat constructor|].
      cbn. split; [reflexivity|]. split; [reflexivity|].
      cbn. rewrite count_app. cbn. lia.
  - exists [Select CaseStop]. eexists.
    split; [cbn; lia|]. split; [repeat constructor|].
    cbn. split; [reflexivity|]. split; [reflexivity|].
    cbn. rewrite count_app. cbn. lia.
Qed.

(** C3. In an execution in which the waitfile is never readable, DoRequest
    is never called.  If the signal branch has run, then a return of
    [GatherResults] is a return of nil, logged as the timeout, after a
    grace goroutine slept out its period and sent on [stop]; and as long as
    the loop is in its select, at most three expiry moves (the sleep
    returning, the send on [stop], the select taking the stop case) bring
    it to that return, still without a call of DoRequest. *)
Theorem timeout_returns_nil (double : bool) (vol : gmap string node)
    (tr : list action) (s : Sys) :
  run double tr (GatherResults waitfile vol) = Some s ->
  unreadable waitfile vol -> never_readable waitfile tr ->
  graceG s <> [] ->
  count is_DoRequest (events (world s)) = 0 /\
  (forall e, main s = Returned e ->
     e = None /\ count is_timeout_log (events (world s)) = 1 /\ 0 < sent (graceG s)) /\
  (in_select s = true -> alive s = true ->
     exists tr' s',
       length tr' <= 3 /\ Forall expiry tr' /\
       run double tr' s = Some s' /\
       main s' = Returned None /\
       count is_DoRequest (events (world s')) = 0).
Proof.
  intros Hrun Hvol Htr Hgrace.
  assert (Hdo : count is_DoRequest (events (world s)) = 0).
  { rewrite (exec_no_transmit _ _ _ _ _ _ _ _ _ _ Hrun); [reflexivity | exact Hvol | exact Htr]. }
  apply reachable_Inv in Hrun.
  split; [exact Hdo|]. split.
  - intros e He. destruct (inv_returned _ _ Hrun e He) as [[H1 _]|(H1 & _ & H3 & H4)].
    + rewrite Hdo in H1. discriminate.
    + auto.
  - intros Hsel Halive.
    destruct (grace_period_runs_out double s Hrun Hgrace Hsel Halive)
      as (tr' & s' & Hlen & Hexp & Hrun' & Hmain & Hcount).
    exists tr', s'. rewrite Hcount, Hdo. auto.
Qed.

(** C4, as the code has it.  The Result Reference is the content of the
    waitfile as read, byte for byte: on a successful read the loop returns
    [handleWaitFile(content)], and every file opened from then on is opened
    under exactly that name. *)
Theorem result_reference_is_content (double : bool) (s : Sys) (data : string) :
  in_select s = true -> alive s = true -> recv_ready (ticker s) = true ->
  volume (world s) !! waitfile = Some (RegularFile true data) ->
  step1 double (Select CaseTicker) s =
    Some (set_main (Returned (fst (handle data url client (detected waitfile data (world s)))))
            (set_world (snd (handle data url client (detected waitfile data (world s))))
               (set_ticker (recv (ticker s)) s))) /\
  exists new,
    events (snd (handle data url client (detected waitfile data (world s))))
      = events (world s) ++ new /\
    forall name flag file, In (SysOpen name flag file) new -> name = data.
Proof.
  intros Hsel Halive Hready Hvol. split.
  - unfold step. rewrite Halive, Hsel. cbn [negb]. apply tick_readable; assumption.
  - destruct (handle data url client (detected waitfile data (world s))) as [e w3] eqn:Hh.
    apply handleWaitFile_spec in Hh. cbn zeta in Hh.
    destruct Hh as (_ & _ & rest & tail & Hev & Hall & Htail).
    eexists. split.
    + cbn [snd]. rewrite Hev. unfold detected, emit. cbn.
      rewrite <- !app_assoc. reflexivity.
    + intros name flag file Hin. cbn in Hin.
      destruct Hin as [Hin|[Hin|[Hin|Hin]]]; try discriminate.
      apply in_app_or in Hin. destruct Hin as [Hin|Hin].
      * rewrite List.Forall_forall in Hall. specialize (Hall _ Hin). cbn in Hall.
        apply Hall.
      * destruct Htail as [->|[f ->]]; cbn in Hin; [contradiction|].
        destruct Hin as [Hin|[]]; discriminate.
Qed.
End Loop.

(** * Concrete runs *)

Lemma watcher_only_reads_witness :
  exists s,
    Demo.run false Demo.no_waitfile
      [SigHandlerRun; RuntimeTick; Select CaseTicker; Plugin Demo.vol;
       RuntimeTick; Select CaseTicker] = Some s /\
    volume (world s) = Demo.vol /\
    Forall (reads_only Demo.waitfile) (events (world s)).
Proof.
  run_to s E. exists s. split; [reflexivity|].
  destruct (watcher_only_reads Demo.ToLower Demo.platform Demo.DoRequest
              Demo.waitfile Demo.url Demo.client false Demo.no_waitfile _ s E)
    as (Hvol & Hreads & _).
  split; [exact Hvol | exact Hreads].
Defined.

Lemma signals_never_signaled_witness :
  exists s,
    Demo.run false Demo.no_waitfile
      [SigHandlerRun; Sigterm; SigHandlerRun; RuntimeTick; Select CaseTicker] = Some s /\
    sigG s = SigExited /\
    signals s = make 0 /\
    step Demo.ToLower Demo.platform Demo.DoRequest false Demo.waitfile Demo.url Demo.client
      (Select CaseSignals) s = None.
Proof.
  run_to s E. exists s. split; [reflexivity|].
  destruct (signals_never_signaled Demo.ToLower Demo.platform Demo.DoRequest
              Demo.waitfile Demo.url Demo.client Demo.no_waitfile _ s E)
    as (Hsig & _ & _ & Hstep & _).
  observe E sigG SigExited Hexit.
  split; [exact Hexit|]. split; [exact Hsig | exact Hstep].
Defined.

Lemma read_error_keeps_polling_witness :
  exists s,
    Demo.run false Demo.no_waitfile [RuntimeTick] = Some s /\
    in_select s = true /\ alive s = true /\ recv_ready (ticker s) = true /\
    snd (fst (ReadFile Demo.waitfile (world s)))
      = Some (PathError "open" Demo.waitfile ENOENT) /\
    Demo.tick false s
      = Some (set_world (emit (SysReadFile Demo.waitfile) (world s))
                (set_ticker (recv (ticker s)) s)).
Proof.
  run_to s E. exists s. split; [reflexivity|].
  observe E in_select true Hsel.
  observe E alive true Halive.
  observe E (fun s => recv_ready (ticker s)) true Hready.
  observe E (fun s => snd (fst (ReadFile Demo.waitfile (world s))))
          (Some (PathError "open" Demo.waitfile ENOENT)) Herr.
  repeat (split; [assumption|]).
  exact (proj1 (proj1 (read_error_keeps_polling Demo.ToLower Demo.platform Demo.DoRequest
                         Demo.waitfile Demo.url Demo.client false Demo.no_waitfile _ s
                         E Hsel Halive Hready) _ Herr)).
Defined.

Lemma readable_result_transmitted_once_witness :
  exists s,
    Demo.run false Demo.no_waitfile
      [RuntimeTick; Select CaseTicker; RuntimeTick; Select CaseTicker;
       Plugin Demo.vol; RuntimeTick] = Some s /\
    in_select s = true /\ alive s = true /\ recv_ready (ticker s) = true /\
    volume (world s) !! Demo.waitfile = Some (RegularFile true "/tmp/results.tar.gz") /\
    volume (world s) !! "/tmp/results.tar.gz"%string = Some (RegularFile true "archive") /\
    exists s',
      Demo.tick false s = Some s' /\
      count is_DoRequest (events (world s')) = 1.
Proof.
  run_to s E. exists s. split; [reflexivity|].
  observe E in_select true Hsel.
  observe E alive true Halive.
  observe E (fun s => recv_ready (ticker s)) true Hready.
  observe E (fun s => volume (world s) !! Demo.waitfile)
          (Some (RegularFile true "/tmp/results.tar.gz")) Hwait.
  observe E (fun s => volume (world s) !! "/tmp/results.tar.gz"%string)
          (Some (RegularFile true "archive")) Hart.
  repeat (split; [assumption|]).
  destruct (readable_result_transmitted_once Demo.ToLower Demo.platform Demo.DoRequest
              Demo.waitfile Demo.url Demo.client false Demo.no_waitfile _ s _ _
              E Hsel Halive Hready Hwait Hart)
    as (s' & new & Hstep & _ & _ & Hcount & _).
  exists s'. split; [exact Hstep | exact Hcount].
Defined.

Lemma late_result_preempts_timeout_witness :
  exists s,
    Demo.run true Demo.no_waitfile
      [TestSignal; Select CaseSignals; SleepReturns 0; Plugin Demo.vol; RuntimeTick]
      = Some s /\
    graceG s <> [] /\
    in_select s = true /\ alive s = true /\ recv_ready (ticker s) = true /\
    volume (world s) !! Demo.waitfile = Some (RegularFile true "/tmp/results.tar.gz") /\
    exists s',
      Demo.tick true s = Some s' /\
      count is_DoRequest (events (world s')) = 1 /\
      count is_timeout_log (events (world s')) = 0.
Proof.
  run_to s E. exists s. split; [reflexivity|].
  observe E graceG [Sending] Hg.
  assert (Hgrace : graceG s <> []) by (rewrite Hg; discriminate).
  observe E in_select true Hsel.
  observe E alive true Halive.
  observe E (fun s => recv_ready (ticker s)) true Hready.
  observe E (fun s => volume (world s) !! Demo.waitfile)
          (Some (RegularFile true "/tmp/results.tar.gz")) Hwait.
  repeat (split; [assumption|]).
  destruct (proj1 (late_result_preempts_timeout Demo.ToLower Demo.platform Demo.DoRequest
                     Demo.waitfile Demo.url Demo.client true Demo.no_waitfile _ s
                     E Hgrace Hsel Halive Hready) _ Hwait)
    as (s' & Hstep & _ & Hdo & Hto & _).
  exists s'. repeat split; assumption.
Defined.

Lemma timeout_returns_nil_witness :
  exists s,
    Demo.run true Demo.no_waitfile
      [TestSignal; Select CaseSignals; RuntimeTick; Select CaseTicker] = Some s /\
    unreadable Demo.waitfile Demo.no_waitfile /\
    never_readable Demo.waitfile
      [TestSignal; Select CaseSignals; RuntimeTick; Select CaseTicker] /\
    graceG s <> [] /\
    count is_DoRequest (events (world s)) = 0 /\
    exists tr' s',
      length tr' <= 3 /\
      exec Demo.ToLower Demo.platform Demo.DoRequest true Demo.waitfile Demo.url Demo.client
           tr' s = Some s' /\
      main s' = Returned None /\
      count is_DoRequest (events (world s')) = 0.
Proof.
  run_to s E. exists s. split; [reflexivity|].
  assert (Hun : unreadable Demo.waitfile Demo.no_waitfile)
    by (intros c; unfold Demo.no_waitfile; rewrite lookup_empty; discriminate).
  assert (Hnever : never_readable Demo.waitfile
                     [TestSignal; Select CaseSignals; RuntimeTick; Select CaseTicker])
    by (repeat constructor).
  observe E graceG [Sleeping] Hg.
  assert (Hgrace : graceG s <> []) by (rewrite Hg; discriminate).
  observe E in_select true Hsel.
  observe E alive true Halive.
  repeat (split; [assumption|]).
  destruct (timeout_returns_nil Demo.ToLower Demo.platform Demo.DoRequest
              Demo.waitfile Demo.url Demo.client true Demo.no_waitfile _ s
              E Hun Hnever Hgrace)
    as (Hdo & _ & Hlive).
  split; [exact Hdo|].
  destruct (Hlive Hsel Halive) as (tr' & s' & Hlen & _ & Hrun & Hmain & Hdo').
  exists tr', s'. repeat split; assumption.
Defined.

Lemma result_reference_is_content_witness :
  exists s,
    Demo.run false Demo.vol_newline [RuntimeTick] = Some s /\
    in_select s = true /\ alive s = true /\ recv_ready (ticker s) = true /\
    volume (world s) !! Demo.waitfile = Some (RegularFile true Demo.content_newline) /\
    exists new,
      events (snd (handleWaitFile Demo.ToLower Demo.platform Demo.DoRequest
                     Demo.content_newline Demo.url Demo.client
                     (detected Demo.waitfile Demo.content_newline (world s))))
        = events (world s) ++ new /\
      forall name flag file, In (SysOpen name flag file) new -> name = Demo.content_newline.
Proof.
  run_to s E. exists s. split; [reflexivity|].
  observe E in_select true Hsel.
  observe E alive true Halive.
  observe E (fun s => recv_ready (ticker s)) true Hready.
  observe E (fun s => volume (world s) !! Demo.waitfile)
          (Some (RegularFile true Demo.content_newline)) Hwait.
  repeat (split; [assumption|]).
  exact (proj2 (result_reference_is_content Demo.ToLower Demo.platform Demo.DoRequest
                  Demo.waitfile Demo.url Demo.client false s _ Hsel Halive Hready Hwait)).
Defined.

(** C4, as the specification words it, fails: the plugin wrote the path of
    an existing artifact followed by a newline; trimming would give that
    path, but the worker opens the name with the newline, fails to, and
    reports the failure. *)
Lemma result_reference_not_trimmed :
  Demo.vol_newline !! Demo.waitfile = Some (RegularFile true Demo.content_newline) /\
  TrimSpace Demo.content_newline = "/tmp/results.tar.gz"%string /\
  Demo.vol_newline !! TrimSpace Demo.content_newline = Some (RegularFile true "archive") /\
  option_map (fun s => (main s, events (world s)))
    (Demo.run false Demo.vol_newline [RuntimeTick; Select CaseTicker])
  = Some (Returned (Some (withStack (PathError "open" Demo.content_newline ENOENT))),
          [Info "Waiting for waitfile" "waitfile" Demo.waitfile;
           SysReadFile Demo.waitfile;
           Info "Detected done file, transmitting result file" "resultFile"
                Demo.content_newline;
           CallDoRequest Demo.url Demo.client;
           SysOpen Demo.content_newline O_RDONLY None;
           CallbackReturn None EmptyString
             (Some (withStack (PathError "open" Demo.content_newline ENOENT)))]) /\
  Demo.content_newline <> TrimSpace Demo.content_newline.
Proof.
  split; [vm_compute; reflexivity|].
  split; [vm_compute; reflexivity|].
  split; [vm_compute; reflexivity|].
  split; [vm_compute; reflexivity|].
  vm_compute. discriminate.
Qed.

(** * Further properties *)

(** ** Content types *)

Lemma substring_shift (p s : string) (j n : nat) :
  String.substring (String.length p + j) n (p ++ s) = String.substring j n s.
Proof. induction p as [|c p IH]; simpl; [reflexivity | exact IH]. Qed.

Lemma substring_all (s : string) : String.substring 0 (String.length s) s = s.
Proof. induction s as [|c s IH]; simpl; [reflexivity | now rewrite IH]. Qed.

Lemma Ext_loop_last_element (dir base : string) (k : nat) :
  filepath.Ext_loop (dir ++ String "/" base) (S (String.length dir) + k)
  = filepath.Ext_loop base k.
Proof.
  induction k as [|j IH].
  - rewrite Nat.add_0_r. cbn [filepath.Ext_loop].
    replace (String.length dir) with (String.length dir + 0) at 1 by lia.
    rewrite get_skip. reflexivity.
  - replace (S (String.length dir) + S j) with (S (String.length dir + S j)) by lia.
    cbn [filepath.Ext_loop]. rewrite get_skip. cbn [String.get].
    destruct (String.get j base) as [c|]; [|reflexivity].
    destruct (filepath.IsPathSeparator c); [reflexivity|].
    destruct (Ascii.eqb c "."%char).
    + rewrite substring_shift, string_length_app. cbn [String.length String.substring].
      f_equal. lia.
    + replace (String.length dir + S j) with (S (String.length dir) + j) by lia.
      exact IH.
Qed.

(** X1. Only the last element of the result path decides the content type
    [handleWaitFile] hands to DoRequest: a dot in a directory name does not
    count. *)
Theorem content_type_of_last_element
    (ToLower : string -> string) (platform : mime.tables) (dir base : string) :
  filepath.Ext (dir ++ "/" ++ base) = filepath.Ext base /\
  mime.TypeByExtension ToLower (init ToLower platform) (filepath.Ext (dir ++ "/" ++ base))
  = mime.TypeByExtension ToLower (init ToLower platform) (filepath.Ext base).
Proof.
  assert (H : filepath.Ext (dir ++ "/" ++ base) = filepath.Ext base).
  { unfold filepath.Ext. change (String.append "/" base) with (String "/"%char base).
    rewrite string_length_app. cbn [String.length].
    replace (String.length dir + S (String.length base))
      with (S (String.length dir) + String.length base) by lia.
    apply Ext_loop_last_element. }
  split; [exact H | rewrite H; reflexivity].
Qed.

Lemma plain_get (e : string) (j : nat) (c : ascii) :
  plain e = true -> String.get j e = Some c ->
  filepath.IsPathSeparator c = false /\ Ascii.eqb c "."%char = false.
Proof.
  revert j. induction e as [|d e IH]; intros j Hp Hg; [destruct j; discriminate|].
  cbn [plain] in Hp. apply andb_true_iff in Hp. destruct Hp as [Hd He].
  apply andb_true_iff in Hd. destruct Hd as [Hdot Hsep].
  destruct j as [|j]; cbn in Hg.
  - inversion Hg; subst. split; [apply negb_true_iff, Hsep | apply negb_true_iff, Hdot].
  - exact (IH j He Hg).
Qed.

Lemma get_in_range (e : string) (j : nat) :
  j < String.length e -> exists c, String.get j e = Some c.
Proof.
  revert j. induction e as [|d e IH]; intros j Hj; cbn in Hj; [lia|].
  destruct j as [|j]; cbn; [eauto | apply IH; lia].
Qed.

Lemma Ext_loop_last_dot (p e : string) (k : nat) :
  plain e = true -> k <= String.length e ->
  filepath.Ext_loop (p ++ String "." e) (S (String.length p) + k) = String "." e.
Proof.
  intros Hp. induction k as [|j IH]; intros Hk.
  - rewrite Nat.add_0_r. cbn [filepath.Ext_loop].
    replace (String.length p) with (String.length p + 0) at 1 by lia.
    rewrite get_skip. cbn.
    rewrite string_length_app. cbn [String.length].
    replace (String.length p + S (String.length e) - String.length p)
      with (String.length (String "." e)) by (cbn; lia).
    replace (String.length p) with (String.length p + 0) at 1 by lia.
    rewrite substring_shift. apply substring_all.
  - replace (S (String.length p) + S j) with (S (String.length p + S j)) by lia.
    cbn [filepath.Ext_loop]. rewrite get_skip. cbn [String.get].
    destruct (get_in_range e j ltac:(lia)) as [c Hc]. rewrite Hc.
    destruct (plain_get e j c Hp Hc) as [-> ->].
    replace (String.length p + S j) with (S (String.length p) + j) by lia.
    apply IH. lia.
Qed.

(** X2. The extension is the text from the last dot on: for a result path
    [p.e] where [e] has no dot and no separator, the content type is the one
    the tables give for [.e], whatever [p] is. *)
Theorem content_type_of_last_dot
    (ToLower : string -> string) (platform : mime.tables) (p e : string) :
  plain e = true ->
  filepath.Ext (p ++ "." ++ e) = ("." ++ e)%string /\
  mime.TypeByExtension ToLower (init ToLower platform) (filepath.Ext (p ++ "." ++ e))
  = mime.TypeByExtension ToLower (init ToLower platform) ("." ++ e).
Proof.
  intros Hp.
  assert (H : filepath.Ext (p ++ "." ++ e) = ("." ++ e)%string).
  { unfold filepath.Ext. change (String.append "." e) with (String "."%char e).
    rewrite string_length_app. cbn [String.length].
    replace (String.length p + S (String.length e))
      with (S (String.length p) + String.length e) by lia.
    apply Ext_loop_last_dot; [exact Hp | lia]. }
  split; [exact H | rewrite H; reflexivity].
Qed.

Lemma content_type_of_last_dot_witness :
  plain "gz" = true /\
  filepath.Ext ("/tmp/results.v1.tar" ++ "." ++ "gz") = ".gz"%string.
Proof.
  split; [reflexivity|].
  exact (proj1 (content_type_of_last_dot Demo.ToLower Demo.platform
                  "/tmp/results.v1.tar" "gz" eq_refl)).
Defined.

(** X3. [init] changes the content type of no extension but ".gz" and the
    spellings that lower-case to what [strings.ToLower] makes of ".gz". *)
Theorem init_changes_gz_only
    (ToLower : string -> string) (platform : mime.tables) (ext : string) :
  ext <> ".gz"%string ->
  lower_key ToLower ext <> ToLower ".gz" ->
  mime.TypeByExtension ToLower (init ToLower platform) ext
  = mime.TypeByExtension ToLower platform ext.
Proof.
  intros Hext Hlow. unfold init, mime.AddExtensionType. cbn [String.prefix negb].
  cbn -[mime.TypeByExtension]. unfold mime.TypeByExtension, mime.index.
  cbn [mime.mimeTypes mime.mimeTypesLower].
  rewrite lookup_insert_ne by congruence.
  unfold lower_key in Hlow.
  destruct (mime.lower_ascii ext) as [l|];
    rewrite lookup_insert_ne by congruence; reflexivity.
Qed.

Lemma init_changes_gz_only_witness :
  ".png"%string <> ".gz"%string /\
  lower_key Demo.ToLower ".png" <> Demo.ToLower ".gz" /\
  mime.TypeByExtension Demo.ToLower (init Demo.ToLower Demo.platform) ".png"
  = mime.TypeByExtension Demo.ToLower Demo.platform ".png".
Proof.
  assert (H1 : ".png"%string <> ".gz"%string) by discriminate.
  assert (H2 : lower_key Demo.ToLower ".png" <> Demo.ToLower ".gz")
    by (vm_compute; discriminate).
  split; [exact H1|]. split; [exact H2|].
  exact (init_changes_gz_only Demo.ToLower Demo.platform ".png" H1 H2).
Defined.

(** X4. Any spelling of ".gz" in other case (".GZ", ".Gz") is gzip as well,
    unless the platform's table has a type for that very spelling, which
    then wins. *)
Theorem gz_in_any_case
    (ToLower : string -> string) (platform : mime.tables) (ext : string) :
  ToLower ".gz" = ".gz"%string ->
  mime.lower_ascii ext = Some ".gz"%string ->
  (mime.index (mime.mimeTypes platform) ext = EmptyString \/ ext = ".gz"%string ->
   mime.TypeByExtension ToLower (init ToLower platform) ext = "application/gzip"%string) /\
  (mime.index (mime.mimeTypes platform) ext <> EmptyString -> ext <> ".gz"%string ->
   mime.TypeByExtension ToLower (init ToLower platform) ext
   = mime.index (mime.mimeTypes platform) ext).
Proof.
  intros Hlow Hext. unfold init, mime.AddExtensionType. cbn [String.prefix negb].
  cbn -[mime.TypeByExtension]. unfold mime.TypeByExtension.
  cbn [mime.mimeTypes mime.mimeTypesLower]. rewrite Hext, Hlow. split.
  - intros [Hnone| ->].
    + destruct (decide (ext = ".gz"%string)) as [->|Hne].
      * unfold mime.index. rewrite lookup_insert_eq. reflexivity.
      * unfold mime.index at 1 2. rewrite lookup_insert_ne by congruence.
        fold (mime.index (mime.mimeTypes platform) ext). rewrite Hnone.
        cbn [String.eqb negb]. unfold mime.index. rewrite lookup_insert_eq. reflexivity.
    + unfold mime.index. rewrite lookup_insert_eq. reflexivity.
  - intros Hsome Hne.
    unfold mime.index at 1 2. rewrite lookup_insert_ne by congruence.
    fold (mime.index (mime.mimeTypes platform) ext).
    destruct (String.eqb_spec (mime.index (mime.mimeTypes platform) ext) EmptyString)
      as [Heq|_]; [contradiction | reflexivity].
Qed.

Lemma gz_in_any_case_witness :
  Demo.ToLower ".gz" = ".gz"%string /\
  mime.lower_ascii ".GZ" = Some ".gz"%string /\
  mime.index (mime.mimeTypes Demo.platform) ".GZ" = EmptyString /\
  mime.TypeByExtension Demo.ToLower (init Demo.ToLower Demo.platform)
    (filepath.Ext "/tmp/RESULTS.TAR.GZ") = "application/gzip"%string.
Proof.
  assert (H1 : Demo.ToLower ".gz" = ".gz"%string) by reflexivity.
  assert (H2 : mime.lower_ascii ".GZ" = Some ".gz"%string) by reflexivity.
  assert (H3 : mime.index (mime.mimeTypes Demo.platform) ".GZ" = EmptyString)
    by (vm_compute; reflexivity).
  split; [exact H1|]. split; [exact H2|]. split; [exact H3|].
  exact (proj1 (gz_in_any_case Demo.ToLower Demo.platform ".GZ" H1 H2) (or_introl H3)).
Defined.

(** ** Files opened and closed by handleWaitFile, for any DoRequest *)

Section TransmissionMore.
Variable ToLower : string -> string.
Variable platform : mime.tables.
Variable DoRequest : string -> Client -> request.

Local Abbreviation handle := (handleWaitFile ToLower platform DoRequest).

Lemma run_request_detail (rf m : string) (q : request) :
  forall fr w e fr' w',
    run_request q (callback rf m) (fr, w) = (e, (fr', w')) ->
    exists rest more,
      events w' = events w ++ rest /\
      files w' = files w ++ more /\
      count is_open_call rest = count is_callback rest /\
      count is_close rest = 0 /\
      count is_read rest = 0 /\
      (forall f, outfile fr' = Some f ->
         (outfile fr = Some f /\ rest = []) \/
         (length (files w) <= f < length (files w') /\
          In (SysOpen rf O_RDONLY (Some f)) rest)).
Proof.
  induction q as [err|k IH]; intros fr w e fr' w' Hrun; cbn in Hrun.
  - inversion Hrun; subst. exists [], []. rewrite !app_nil_r.
    repeat split; auto.
  - destruct (callback_spec rf m fr w) as (file & Hcb & Hnone & Hlen).
    rewrite Hcb in Hrun. apply IH in Hrun. cbn [events files outfile] in Hrun.
    destruct Hrun as (rest & more & Hev & Hfiles & Hoc & Hcl & Hrd & Hout).
    eexists (_ :: _ :: rest), (_ ++ more).
    split; [rewrite Hev, <- app_assoc; reflexivity|].
    split; [rewrite Hfiles, <- app_assoc; reflexivity|].
    split; [cbn; rewrite Hoc; reflexivity|].
    split; [cbn; exact Hcl|]. split; [cbn; exact Hrd|].
    intros f Hf. right. destruct (Hout f Hf) as [[Hfile ->]|[Hrange Hin]].
    + subst file. specialize (Hlen f eq_refl). subst f.
      rewrite Hfiles, !length_app. cbn.
      split; [lia | left; reflexivity].
    + rewrite length_app in Hrange. split; [lia | right; right; exact Hin].
Qed.

Lemma handleWaitFile_detail (rf url : string) (client : Client) (w : World) :
  exists new tail,
    events (snd (handle rf url client w)) = events w ++ CallDoRequest url client :: new ++ tail /\
    count is_open_call new = count is_callback new /\
    count is_close new = 0 /\ count is_read new = 0 /\
    (tail = [] \/
     exists f, tail = [SysClose f] /\ length (files w) <= f /\
               In (SysOpen rf O_RDONLY (Some f)) new) /\
    (forall g, g < length (files w) -> files (snd (handle rf url client w)) !! g = files w !! g).
Proof.
  unfold handleWaitFile.
  destruct (run_request _ _ _) as [e [fr w1]] eqn:Hrun.
  apply run_request_detail in Hrun. cbn [events files emit outfile] in Hrun.
  destruct Hrun as (rest & more & Hev & Hfiles & Hoc & Hcl & Hrd & Hout).
  destruct (outfile fr) as [f|] eqn:Hf; cbn [snd].
  - destruct (Hout f eq_refl) as [[Habs _]|[Hrange Hin]]; [discriminate|].
    exists rest, [SysClose f]. unfold Close, emit. cbn [events files].
    split; [rewrite Hev, <- !app_assoc; reflexivity|].
    repeat (split; [assumption|]). split.
    + right. exists f. repeat split; [lia | exact Hin].
    + intros g Hg. destruct (files w1 !! f) as [[name o]|].
      * rewrite list_lookup_insert_ne by lia. rewrite Hfiles. apply lookup_app_l. exact Hg.
      * rewrite Hfiles. apply lookup_app_l. exact Hg.
  - exists rest, []. rewrite app_nil_r.
    split; [rewrite Hev, <- !app_assoc; reflexivity|].
    repeat (split; [assumption|]). split; [left; reflexivity|].
    intros g Hg. rewrite Hfiles. apply lookup_app_l. exact Hg.
Qed.

(** X5. Whatever DoRequest does with the callback, [handleWaitFile] closes at
    most one file, and only one it opened on the result path during this
    call; the files the process had before the call are as they were. *)
Theorem closes_only_its_own (resultFile url : string) (client : Client) (w : World) :
  exists new,
    events (snd (handle resultFile url client w)) = events w ++ new /\
    count is_close new <= 1 /\
    (forall f, In (SysClose f) new ->
       length (files w) <= f /\ In (SysOpen resultFile O_RDONLY (Some f)) new) /\
    (forall g, g < length (files w) ->
       files (snd (handle resultFile url client w)) !! g = files w !! g).
Proof.
  destruct (handleWaitFile_detail resultFile url client w)
    as (new & tail & Hev & _ & Hcl & _ & Htail & Hfiles).
  exists (CallDoRequest url client :: new ++ tail).
  split; [exact Hev|]. split; [|split; [|exact Hfiles]].
  - cbn. rewrite count_app, Hcl.
    destruct Htail as [->|(f & -> & _)]; cbn; lia.
  - intros f Hin. cbn in Hin. destruct Hin as [Hin|Hin]; [discriminate|].
    apply in_app_or in Hin. destruct Hin as [Hin|Hin].
    + exfalso. clear - Hcl Hin. induction new as [|x new IH]; [contradiction|].
      cbn in Hcl. destruct Hin as [->|Hin]; [cbn in Hcl; discriminate|].
      apply IH; [|exact Hin]. destruct (is_close x); [discriminate | exact Hcl].
    + destruct Htail as [->|(f' & -> & Hge & Hopen)]; [contradiction|].
      cbn in Hin. destruct Hin as [Heq|[]]. inversion Heq; subst f'.
      split; [exact Hge|]. cbn. right. apply in_or_app. left. exact Hopen.
Qed.

(** X6. The artifact is opened only from inside the callback: as many opens as
    DoRequest made invocations, none when it made none; and
    [handleWaitFile] never reads the waitfile again. *)
Theorem opens_on_demand (resultFile url : string) (client : Client) (w : World) :
  exists new,
    events (snd (handle resultFile url client w)) = events w ++ new /\
    count is_open_call new = count is_callback new /\
    count is_read new = 0.
Proof.
  destruct (handleWaitFile_detail resultFile url client w)
    as (new & tail & Hev & Hoc & _ & Hrd & Htail & _).
  exists (CallDoRequest url client :: new ++ tail).
  split; [exact Hev|].
  cbn. rewrite !count_app, Hoc, Hrd.
  destruct Htail as [->|(f & -> & _)]; cbn; lia.
Qed.
End TransmissionMore.

(** ** More on the loop *)

Lemma calls_app (l1 l2 : list event) : calls (l1 ++ l2) = calls l1 ++ calls l2.
Proof.
  induction l1 as [|e l1 IH]; [reflexivity|].
  destruct e; cbn; rewrite IH; reflexivity.
Qed.

Lemma callback_event_not_read vol rf m (e : event) :
  callback_event vol rf m e -> is_read e = false.
Proof. destruct e; cbn; tauto. Qed.

Lemma callback_event_not_signal_log vol rf m (e : event) :
  callback_event vol rf m e -> is_signal_log e = false.
Proof. destruct e; cbn; tauto. Qed.

Section LoopMore.
Variable ToLower : string -> string.
Variable platform : mime.tables.
Variable DoRequest : string -> Client -> request.
Variables (double : bool) (waitfile url : string) (client : Client).

Local Abbreviation handle := (handleWaitFile ToLower platform DoRequest).
Local Abbreviation step1 := (step ToLower platform DoRequest double waitfile url client).
Local Abbreviation run := (exec ToLower platform DoRequest double waitfile url client).

(** X7. In every execution a return of [GatherResults] is either the one after
    the call of DoRequest or the one after the timeout line, never both, and
    before the return there was neither: DoRequest is called at most once. *)
Theorem returns_after_transmission_or_timeout (vol : gmap string node)
    (tr : list action) (s : Sys) :
  run tr (GatherResults waitfile vol) = Some s ->
  count is_DoRequest (events (world s)) + count is_timeout_log (events (world s))
  = (if in_select s then 0 else 1) /\
  (count is_timeout_log (events (world s)) = 1 -> main s = Returned None).
Proof.
  intros Hrun. apply (reachable_Inv ToLower platform DoRequest double) in Hrun.
  destruct Hrun as [_ _ _ _ Hloop Hret].
  unfold in_select in *. destruct (main s) as [|e] eqn:Hmain.
  - destruct (Hloop eq_refl) as (_ & _ & Hdo & Hto). rewrite Hdo, Hto.
    split; [reflexivity | discriminate].
  - destruct (Hret e eq_refl) as [[Hdo Hto]|(He & Hdo & Hto & _)]; rewrite Hdo, Hto.
    + split; [reflexivity | discriminate].
    + subst e. split; reflexivity.
Qed.

(** X8. Once [GatherResults] has returned, what its goroutines still do makes no
    system call and no call of DoRequest, and opens or closes no file: the
    only event that can follow is the log line of sigHandler's goroutine. *)
Theorem nothing_after_return (tr : list action) :
  forall (s s' : Sys) (e : option error),
    main s = Returned e ->
    run tr s = Some s' ->
    main s' = Returned e /\
    calls (events (world s')) = calls (events (world s)) /\
    files (world s') = files (world s).
Proof.
  induction tr as [|a tr IH]; intros s s' e Hmain Hrun; cbn in Hrun.
  - inversion Hrun; subst. auto.
  - destruct (step1 a s) as [s1|] eqn:Hstep; [|discriminate].
    assert (H1 : main s1 = Returned e /\
                 calls (events (world s1)) = calls (events (world s)) /\
                 files (world s1) = files (world s)).
    { unfold step in Hstep. destruct (alive s); cbn in Hstep; [|discriminate].
      destruct a as [vol| | | | |c|i|i].
      - inversion Hstep; subst; cbn; auto.
      - inversion Hstep; subst; cbn; auto.
      - destruct (sigc s); inversion Hstep; subst; cbn; auto.
      - destruct (sigG s); [| |discriminate].
        + inversion Hstep; subst; cbn; auto.
        + destruct (sigc s) as [c|]; [|discriminate].
          destruct (recv_ready c); inversion Hstep; subst; cbn.
          rewrite calls_app. cbn. rewrite app_nil_r. auto.
      - destruct double; inversion Hstep; subst; cbn; auto.
      - unfold in_select in Hstep. rewrite Hmain in Hstep. discriminate.
      - destruct (graceG s !! i) as [[| |]|]; inversion Hstep; subst; cbn; auto.
      - destruct (graceG s !! i) as [[| |]|]; try discriminate.
        destruct (closed (stop s)); [inversion Hstep; subst; cbn; auto|].
        destruct (cap (stop s)) as [|n]; [discriminate|].
        destruct (len (stop s) <=? n); inversion Hstep; subst; cbn; auto. }
    destruct H1 as (Hm & Hc & Hf).
    destruct (IH s1 s' e Hm Hrun) as (Hm' & Hc' & Hf').
    rewrite Hc', Hc, Hf', Hf. auto.
Qed.

(** *** The ticker *)

Lemma step_reads (a : action) (s s' : Sys) :
  step1 a s = Some s' -> ticker_ok s ->
  ticker_ok s' /\
  count is_read (events (world s')) + len (ticker s')
  <= count is_read (events (world s)) + len (ticker s) + ticks [a].
Proof.
  intros Hstep (Hcap & Hpark & Hclosed & Hlen). unfold step in Hstep.
  destruct (alive s) eqn:Halive; cbn in Hstep; [|discriminate].
  destruct a as [vol| | | | |c|i|i].
  - inversion Hstep; subst; cbn. unfold ticker_ok. cbn. repeat split; auto; lia.
  - inversion Hstep; subst. unfold ticker_ok, try_send, has_room.
    cbn [ticker set_ticker world events ticks]. rewrite Hcap.
    destruct (len (ticker s)) as [|n] eqn:Hl; cbn;
      rewrite ?Hcap, ?Hpark, ?Hclosed, ?Hl; repeat split; auto; lia.
  - destruct (sigc s); inversion Hstep; subst; cbn; unfold ticker_ok; cbn;
      repeat split; auto; lia.
  - destruct (sigG s); [| |discriminate].
    + inversion Hstep; subst; cbn. unfold ticker_ok; cbn. repeat split; auto; lia.
    + destruct (sigc s) as [c|]; [|discriminate].
      destruct (recv_ready c); inversion Hstep; subst; cbn.
      unfold ticker_ok; cbn. rewrite count_app. cbn. repeat split; auto; lia.
  - destruct double; inversion Hstep; subst; cbn. unfold ticker_ok; cbn.
    repeat split; auto; lia.
  - destruct (in_select s) eqn:Hsel; [|discriminate].
    destruct c.
    + destruct (recv_ready (ticker s)) eqn:Hready;
        [|unfold select_body in Hstep; rewrite Hready in Hstep; discriminate].
      assert (Hpos : 0 < len (ticker s)).
      { unfold recv_ready in Hready. rewrite Hpark, Hclosed in Hready.
        destruct (len (ticker s)); [cbn in Hready; discriminate | lia]. }
      assert (Hrecv : recv (ticker s) = Chan 1 (len (ticker s) - 1) 0 false).
      { unfold recv. destruct (len (ticker s)) eqn:Hl; [lia|]. cbn.
        rewrite Hcap, Hpark, Hclosed. reflexivity. }
      destruct (readable_or_not waitfile (volume (world s))) as [[data Hvol]|Hun].
      * rewrite (tick_readable ToLower platform DoRequest waitfile url client
                   s data Hready Hvol) in Hstep.
        inversion Hstep; subst; clear Hstep.
        destruct (handle data url client (detected waitfile data (world s)))
          as [e w3] eqn:Hh.
        apply handleWaitFile_spec in Hh. cbn zeta in Hh.
        destruct Hh as (_ & _ & rest & tail & Hev & Hall & Htail).
        cbn [world ticker set_main set_world set_ticker snd]. rewrite Hrecv.
        unfold ticker_ok. cbn [cap parked closed len].
        rewrite Hev. unfold detected, emit. cbn [events].
        rewrite !count_app. cbn.
        rewrite count_app,
          (callback_event_count _ _ _ _ _ (callback_event_not_read _ _ _) Hall).
        destruct Htail as [->|[f ->]]; cbn; repeat split; auto; lia.
      * rewrite (tick_unreadable ToLower platform DoRequest waitfile url client
                   s Hready Hun) in Hstep.
        inversion Hstep; subst; clear Hstep.
        cbn [world ticker set_world set_ticker]. rewrite Hrecv.
        unfold ticker_ok, emit. cbn [cap parked closed len events].
        rewrite count_app. cbn. repeat split; auto; lia.
    + cbn in Hstep. destruct (recv_ready (signals s)); inversion Hstep; subst; cbn.
      unfold ticker_ok; cbn. repeat split; auto; lia.
    + cbn in Hstep. destruct (recv_ready (stop s)); inversion Hstep; subst; cbn.
      unfold ticker_ok; cbn. rewrite count_app. cbn. repeat split; auto; lia.
  - destruct (graceG s !! i) as [[| |]|]; inversion Hstep; subst; cbn.
    unfold ticker_ok; cbn. repeat split; auto; lia.
  - destruct (graceG s !! i) as [[| |]|]; try discriminate.
    destruct (closed (stop s));
      [inversion Hstep; subst; cbn; unfold ticker_ok; cbn; repeat split; auto; lia|].
    destruct (cap (stop s)) as [|n]; [discriminate|].
    destruct (len (stop s) <=? n); inversion Hstep; subst; cbn.
    unfold ticker_ok; cbn. repeat split; auto; lia.
Qed.

Lemma ticks_cons (a : action) (tr : list action) : ticks (a :: tr) = ticks [a] + ticks tr.
Proof. destruct a; reflexivity. Qed.

Lemma exec_reads (tr : list action) :
  forall s s', run tr s = Some s' -> ticker_ok s ->
    ticker_ok s' /\
    count is_read (events (world s')) + len (ticker s')
    <= count is_read (events (world s)) + len (ticker s) + ticks tr.
Proof.
  induction tr as [|a tr IH]; intros s s' Hrun Hok; cbn [exec] in Hrun.
  - inversion Hrun; subst. split; [exact Hok | cbn; lia].
  - destruct (step1 a s) as [s1|] eqn:Hstep; [|discriminate].
    destruct (step_reads _ _ _ Hstep Hok) as (Hok1 & Hle1).
    destruct (IH _ _ Hrun Hok1) as (Hok' & Hle').
    split; [exact Hok'|]. rewrite ticks_cons. lia.
Qed.

(** X9. The waitfile is read at most once per tick of the ticker, however the
    loop is scheduled; at most one tick is ever pending, the ticks that fire
    meanwhile are dropped. *)
Theorem one_read_per_tick (vol : gmap string node) (tr : list action) (s : Sys) :
  run tr (GatherResults waitfile vol) = Some s ->
  count is_read (events (world s)) + len (ticker s) <= ticks tr /\
  len (ticker s) <= 1.
Proof.
  intros Hrun.
  assert (Hok : ticker_ok (GatherResults waitfile vol))
    by (unfold ticker_ok; cbn; repeat split; lia).
  destruct (exec_reads _ _ _ Hrun Hok) as ((_ & _ & _ & Hlen) & Hle).
  cbn in Hle. split; [lia | exact Hlen].
Qed.
End LoopMore.

(** ** sigHandler *)

Section SignalMore.
Variable ToLower : string -> string.
Variable platform : mime.tables.
Variable DoRequest : string -> Client -> request.
Variables (double : bool) (waitfile url : string) (client : Client).

Local Abbreviation handle := (handleWaitFile ToLower platform DoRequest).
Local Abbreviation step1 := (step ToLower platform DoRequest double waitfile url client).
Local Abbreviation run := (exec ToLower platform DoRequest double waitfile url client).

Lemma sig_ok_same (s s' : Sys) (n : nat) :
  sigG s' = sigG s -> sigc s' = sigc s ->
  count is_signal_log (events (world s')) = count is_signal_log (events (world s)) ->
  sig_ok s ->
  sig_ok s' /\
  count is_signal_log (events (world s')) + sigc_len s'
  <= count is_signal_log (events (world s)) + sigc_len s + n.
Proof.
  intros HG Hc Hlog Hok. unfold sig_ok, sigc_len in *. rewrite HG, Hc, Hlog.
  split; [exact Hok | lia].
Qed.

Lemma step_sig (a : action) (s s' : Sys) :
  step1 a s = Some s' -> sig_ok s ->
  sig_ok s' /\
  count is_signal_log (events (world s')) + sigc_len s'
  <= count is_signal_log (events (world s)) + sigc_len s + sigterms [a].
Proof.
  intros Hstep Hok. unfold step in Hstep.
  destruct (alive s) eqn:Halive; cbn in Hstep; [|discriminate].
  destruct a as [vol| | | | |c|i|i].
  - inversion Hstep; subst. apply sig_ok_same; auto.
  - inversion Hstep; subst. apply sig_ok_same; auto.
  - destruct (sigc s) as [c|] eqn:Hc.
    + inversion Hstep; subst; clear Hstep.
      destruct Hok as (Hsp & Hreg & Hlog). unfold sig_ok, sigc_len.
      cbn [sigG sigc world set_sigc sigterms]. rewrite Hc in *.
      split; [split; [|split]|].
      * intros H. specialize (Hsp H). discriminate.
      * intros H. destruct (Hreg H) as (c' & Hc' & Hcap & Hpark & Hcl & Hlen).
        inversion Hc'; subst c'. exists (try_send c).
        unfold try_send, has_room, send. rewrite Hcap.
        destruct (len c <? 1) eqn:Hlt; cbn; [apply Nat.ltb_lt in Hlt|];
          repeat split; auto; lia.
      * exact Hlog.
      * unfold try_send, has_room, send. destruct (len c <? cap c); cbn; lia.
    + inversion Hstep; subst. apply sig_ok_same; auto.
  - destruct Hok as (Hsp & Hreg & Hlog).
    destruct (sigG s) eqn:HG; [| |discriminate].
    + inversion Hstep; subst; clear Hstep. unfold sig_ok, sigc_len.
      cbn [sigG sigc world set_sigG set_sigc sigterms len make].
      rewrite (Hsp eq_refl). split; [split; [|split]|].
      * discriminate.
      * intros _. exists (make 1). cbn. repeat split; auto.
      * exact Hlog.
      * lia.
    + destruct (Hreg ltac:(discriminate)) as (c & Hc & Hcap & Hpark & Hcl & Hlen).
      rewrite Hc in Hstep. destruct (recv_ready c) eqn:Hready; [|discriminate].
      inversion Hstep; subst; clear Hstep.
      assert (Hpos : 0 < len c).
      { unfold recv_ready in Hready. rewrite Hpark, Hcl in Hready.
        destruct (len c); [cbn in Hready; discriminate | lia]. }
      assert (Hrecv : recv c = Chan 1 (len c - 1) 0 false).
      { unfold recv. destruct (len c) eqn:Hl; [lia|]. cbn.
        rewrite Hcap, Hpark, Hcl. reflexivity. }
      unfold sig_ok, sigc_len, emit.
      cbn [sigG sigc world set_sigG set_sigc set_world events sigterms].
      rewrite Hrecv, count_app, Hlog, Hc. cbn.
      split; [split; [|split]|].
      * discriminate.
      * intros _. eexists. split; [reflexivity|]. cbn. repeat split; auto; lia.
      * reflexivity.
      * lia.
  - destruct double; inversion Hstep; subst. apply sig_ok_same; auto.
  - destruct (in_select s) eqn:Hsel; [|discriminate].
    destruct c.
    + destruct (recv_ready (ticker s)) eqn:Hready;
        [|unfold select_body in Hstep; rewrite Hready in Hstep; discriminate].
      destruct (readable_or_not waitfile (volume (world s))) as [[data Hvol]|Hun].
      * rewrite (tick_readable ToLower platform DoRequest waitfile url client
                   s data Hready Hvol) in Hstep.
        inversion Hstep; subst; clear Hstep.
        destruct (handle data url client (detected waitfile data (world s)))
          as [e w3] eqn:Hh.
        apply handleWaitFile_spec in Hh. cbn zeta in Hh.
        destruct Hh as (_ & _ & rest & tail & Hev & Hall & Htail).
        apply sig_ok_same; auto.
        cbn [world set_main set_world set_ticker snd].
        rewrite Hev. unfold detected, emit. cbn [events].
        rewrite !count_app. cbn.
        rewrite count_app,
          (callback_event_count _ _ _ _ _ (callback_event_not_signal_log _ _ _) Hall).
        destruct Htail as [->|[f ->]]; cbn; lia.
      * rewrite (tick_unreadable ToLower platform DoRequest waitfile url client
                   s Hready Hun) in Hstep.
        inversion Hstep; subst; clear Hstep.
        apply sig_ok_same; auto. cbn. rewrite count_app. cbn. lia.
    + cbn in Hstep. destruct (recv_ready (signals s)); inversion Hstep; subst.
      apply sig_ok_same; auto.
    + cbn in Hstep. destruct (recv_ready (stop s)); inversion Hstep; subst.
      apply sig_ok_same; auto. cbn. rewrite count_app. cbn. lia.
  - destruct (graceG s !! i) as [[| |]|]; inversion Hstep; subst.
    apply sig_ok_same; auto.
  - destruct (graceG s !! i) as [[| |]|]; try discriminate.
    destruct (closed (stop s)); [inversion Hstep; subst; apply sig_ok_same; auto|].
    destruct (cap (stop s)) as [|n]; [discriminate|].
    destruct (len (stop s) <=? n); inversion Hstep; subst.
    apply sig_ok_same; auto.
Qed.

Lemma sigterms_cons (a : action) (tr : list action) :
  sigterms (a :: tr) = sigterms [a] + sigterms tr.
Proof. destruct a; reflexivity. Qed.

Lemma exec_sig (tr : list action) :
  forall s s', run tr s = Some s' -> sig_ok s ->
    sig_ok s' /\
    count is_signal_log (events (world s')) + sigc_len s'
    <= count is_signal_log (events (world s)) + sigc_len s + sigterms tr.
Proof.
  induction tr as [|a tr IH]; intros s s' Hrun Hok; cbn [exec] in Hrun.
  - inversion Hrun; subst. split; [exact Hok | cbn; lia].
  - destruct (step1 a s) as [s1|] eqn:Hstep; [|discriminate].
    destruct (step_sig _ _ _ Hstep Hok) as (Hok1 & Hle1).
    destruct (IH _ _ Hrun Hok1) as (Hok' & Hle').
    split; [exact Hok'|]. rewrite sigterms_cons. lia.
Qed.

(** X10. sigHandler is single-shot: in every execution its goroutine writes the
    signal line at most once, only for a SIGTERM that was delivered after
    [signal.Notify], and the line is there exactly when the goroutine has
    exited; of the SIGTERMs that follow, one stays in [sigc] unread and the
    others are dropped. *)
Theorem signal_logged_once (vol : gmap string node) (tr : list action) (s : Sys) :
  run tr (GatherResults waitfile vol) = Some s ->
  count is_signal_log (events (world s)) <= 1 /\
  count is_signal_log (events (world s)) + sigc_len s <= sigterms tr /\
  (count is_signal_log (events (world s)) = 1 <-> sigG s = SigExited) /\
  sigc_len s <= 1.
Proof.
  intros Hrun.
  assert (Hok : sig_ok (GatherResults waitfile vol)).
  { unfold sig_ok. cbn. repeat split; auto. intros H; congruence. }
  destruct (exec_sig _ _ _ Hrun Hok) as ((Hsp & Hreg & Hlog) & Hle).
  cbn in Hle. rewrite Hlog in *.
  split; [destruct (sigG s); lia|]. split; [lia|]. split.
  - destruct (sigG s); split; intros H; try reflexivity; discriminate.
  - unfold sigc_len. destruct (sigG s) eqn:HG.
    + rewrite (Hsp eq_refl). lia.
    + destruct (Hreg ltac:(discriminate)) as (c & -> & _ & _ & _ & Hlen). exact Hlen.
    + destruct (Hreg ltac:(discriminate)) as (c & -> & _ & _ & _ & Hlen). exact Hlen.
Qed.
End SignalMore.

(** ** The program as written *)

Section AsWrittenMore.
Variable ToLower : string -> string.
Variable platform : mime.tables.
Variable DoRequest : string -> Client -> request.
Variables (waitfile url : string) (client : Client).

Local Abbreviation run0 := (exec ToLower platform DoRequest false waitfile url client).

(** X11. With the channel of sigHandler connected to nothing, [GatherResults]
    has one way out: every return follows a call of DoRequest and none the
    timeout line.  SIGTERM, whenever and however often it arrives, does not
    make it return: as long as the waitfile cannot be read the loop stays in
    its select. *)
Theorem as_written_returns_only_after_transmission (vol : gmap string node)
    (tr : list action) (s : Sys) :
  run0 tr (GatherResults waitfile vol) = Some s ->
  (forall e, main s = Returned e ->
     count is_DoRequest (events (world s)) = 1 /\
     count is_timeout_log (events (world s)) = 0) /\
  (unreadable waitfile vol -> never_readable waitfile tr -> main s = InSelect).
Proof.
  intros Hrun.
  assert (Hq : quiet s).
  { eapply exec_quiet; [exact Hrun|]. repeat split. }
  destruct Hq as (_ & Hg & _).
  pose proof (reachable_Inv ToLower platform DoRequest false waitfile url client
                _ _ _ Hrun) as Hinv.
  assert (Hret : forall e, main s = Returned e ->
            count is_DoRequest (events (world s)) = 1 /\
            count is_timeout_log (events (world s)) = 0).
  { intros e He. destruct (inv_returned _ _ Hinv e He) as [H|(_ & _ & _ & Hsent)];
      [exact H|]. rewrite Hg in Hsent. cbn in Hsent. lia. }
  split; [exact Hret|].
  intros Hun Hnever. destruct (main s) as [|e] eqn:Hmain; [reflexivity|].
  destruct (Hret e eq_refl) as [Hdo _].
  rewrite (exec_no_transmit ToLower platform DoRequest false waitfile url client
             tr _ _ Hrun Hun Hnever) in Hdo.
  cbn in Hdo. discriminate.
Qed.
End AsWrittenMore.

(** ** Concrete runs, continued *)

Lemma as_written_returns_only_after_transmission_witness :
  exists s,
    Demo.run false Demo.no_waitfile
      [SigHandlerRun; Sigterm; SigHandlerRun; RuntimeTick; Select CaseTicker;
       Sigterm; Sigterm; RuntimeTick; Select CaseTicker] = Some s /\
    unreadable Demo.waitfile Demo.no_waitfile /\
    never_readable Demo.waitfile
      [SigHandlerRun; Sigterm; SigHandlerRun; RuntimeTick; Select CaseTicker;
       Sigterm; Sigterm; RuntimeTick; Select CaseTicker] /\
    alive s = true /\ main s = InSelect.
Proof.
  run_to s E. exists s. split; [reflexivity|].
  assert (Hun : unreadable Demo.waitfile Demo.no_waitfile)
    by (intros c; unfold Demo.no_waitfile; rewrite lookup_empty; discriminate).
  assert (Hnever : never_readable Demo.waitfile
            [SigHandlerRun; Sigterm; SigHandlerRun; RuntimeTick; Select CaseTicker;
             Sigterm; Sigterm; RuntimeTick; Select CaseTicker])
    by (repeat constructor).
  observe E alive true Halive.
  repeat (split; [assumption|]).
  exact (proj2 (as_written_returns_only_after_transmission Demo.ToLower Demo.platform
                  Demo.DoRequest Demo.waitfile Demo.url Demo.client Demo.no_waitfile _ s E)
               Hun Hnever).
Defined.

Lemma returns_after_transmission_or_timeout_witness :
  exists s,
    Demo.run true Demo.no_waitfile
      [TestSignal; Select CaseSignals; SleepReturns 0; StopSend 0; Select CaseStop]
      = Some s /\
    count is_timeout_log (events (world s)) = 1 /\
    count is_DoRequest (events (world s)) = 0 /\
    main s = Returned None.
Proof.
  run_to s E. exists s. split; [reflexivity|].
  observe E (fun s => count is_timeout_log (events (world s))) 1 Hto.
  destruct (returns_after_transmission_or_timeout Demo.ToLower Demo.platform
              Demo.DoRequest true Demo.waitfile Demo.url Demo.client
              Demo.no_waitfile _ s E) as (Hsum & Hret).
  split; [exact Hto|]. split; [|exact (Hret Hto)].
  rewrite Hto in Hsum. destruct (in_select s); lia.
Defined.

Lemma nothing_after_return_witness :
  exists s s',
    Demo.run false Demo.vol [RuntimeTick; Select CaseTicker] = Some s /\
    main s = Returned None /\
    exec Demo.ToLower Demo.platform Demo.DoRequest false Demo.waitfile Demo.url Demo.client
         [RuntimeTick; SigHandlerRun; Sigterm; SigHandlerRun; Plugin Demo.no_waitfile] s
      = Some s' /\
    main s' = Returned None /\
    calls (events (world s')) = calls (events (world s)) /\
    length (events (world s')) = S (length (events (world s))).
Proof.
  run_to s E. exists s.
  observe E main (Returned None) Hmain.
  assert (Hgo : Demo.run false Demo.vol
                  ([RuntimeTick; Select CaseTicker] ++
                   [RuntimeTick; SigHandlerRun; Sigterm; SigHandlerRun;
                    Plugin Demo.no_waitfile]) <> None)
    by (vm_compute; discriminate).
  assert (Hlen : option_map (fun s => length (events (world s)))
                   (Demo.run false Demo.vol
                      ([RuntimeTick; Select CaseTicker] ++
                       [RuntimeTick; SigHandlerRun; Sigterm; SigHandlerRun;
                        Plugin Demo.no_waitfile])) = Some 8)
    by (vm_compute; reflexivity).
  observe E (fun s => length (events (world s))) 7 Hlen0.
  rewrite exec_app, E in Hgo, Hlen.
  destruct (exec Demo.ToLower Demo.platform Demo.DoRequest false Demo.waitfile Demo.url
              Demo.client
              [RuntimeTick; SigHandlerRun; Sigterm; SigHandlerRun; Plugin Demo.no_waitfile] s)
    as [s'|] eqn:E'; [|congruence].
  exists s'. split; [reflexivity|]. split; [exact Hmain|]. split; [reflexivity|].
  destruct (nothing_after_return Demo.ToLower Demo.platform Demo.DoRequest false
              Demo.waitfile Demo.url Demo.client _ s s' None Hmain E') as (Hm & Hc & _).
  split; [exact Hm|]. split; [exact Hc|].
  cbn [option_map] in Hlen. injection Hlen as Hlen. rewrite Hlen, Hlen0. reflexivity.
Defined.

Lemma one_read_per_tick_witness :
  exists s,
    Demo.run false Demo.no_waitfile
      [RuntimeTick; RuntimeTick; RuntimeTick; Select CaseTicker] = Some s /\
    count is_read (events (world s)) = 1 /\
    Demo.tick false s = None.
Proof.
  run_to s E. exists s. split; [reflexivity|].
  destruct (one_read_per_tick Demo.ToLower Demo.platform Demo.DoRequest false
              Demo.waitfile Demo.url Demo.client Demo.no_waitfile _ s E) as (Hle & _).
  observe E (fun s => count is_read (events (world s))) 1 Hreads.
  observe E (fun s => Demo.tick false s) (@None Sys) Htick.
  split; [exact Hreads | exact Htick].
Defined.

Lemma signal_logged_once_witness :
  exists s,
    Demo.run false Demo.no_waitfile
      [SigHandlerRun; Sigterm; Sigterm; SigHandlerRun; Sigterm; Sigterm; SigHandlerRun]
      = None /\
    Demo.run false Demo.no_waitfile
      [SigHandlerRun; Sigterm; Sigterm; SigHandlerRun; Sigterm; Sigterm] = Some s /\
    sigG s = SigExited /\
    count is_signal_log (events (world s)) = 1 /\
    sigc_len s = 1.
Proof.
  run_to s E. exists s.
  split; [vm_compute; reflexivity|]. split; [reflexivity|].
  observe E sigG SigExited HG.
  observe E sigc_len 1 Hlen.
  destruct (signal_logged_once Demo.ToLower Demo.platform Demo.DoRequest false
              Demo.waitfile Demo.url Demo.client Demo.no_waitfile _ s E)
    as (_ & _ & Hiff & _).
  split; [exact HG|]. split; [exact (proj2 Hiff HG) | exact Hlen].
Defined.

Lemma closes_only_its_own_witness :
  exists new,
    events (snd (handleWaitFile Demo.ToLower Demo.platform Demo.DoRequest_retrying
                   "/tmp/results.tar.gz" Demo.url Demo.client
                   (mkWorld Demo.vol [("/var/log/worker.log"%string, true)] [])))
      = new /\
    In (SysClose 2) new /\
    In (SysOpen "/tmp/results.tar.gz" O_RDONLY (Some 2)) new /\
    ~ In (SysClose 0) new.
Proof.
  destruct (closes_only_its_own Demo.ToLower Demo.platform Demo.DoRequest_retrying
              "/tmp/results.tar.gz" Demo.url Demo.client
              (mkWorld Demo.vol [("/var/log/worker.log"%string, true)] []))
    as (new & Hev & _ & Hown & _).
  cbn [events app] in Hev. exists new. split; [exact Hev|].
  assert (Hin : In (SysClose 2) new).
  { rewrite <- Hev. vm_compute. do 5 right. left. reflexivity. }
  split; [exact Hin|]. split; [exact (proj2 (Hown 2 Hin))|].
  intros H0. destruct (Hown 0 H0) as [Hge _]. cbn in Hge. lia.
Defined.
